(** * ExFITS: the NIF marshalling layer between Erlang terms and CFITSIO

    A shallow embedding of [c_src/exfits_nif.c] and [c_src/write_fits.c].
    The C functions are written as programs over the calls they make into
    CFITSIO, the C library and [stderr]; the Erlang terms they receive and
    build are an inductive type; C integer arithmetic is on [Z] with the
    wrap-around of an LP64 platform written out. *)

From Stdlib Require Import ZArith Ascii String List Lia Bool.
From stdpp Require Import base option strings gmap.
Import ListNotations.

Set Warnings "-register-all".

Local Open Scope string_scope.
Local Open Scope Z_scope.

(** ** C integer types (LP64: [long] and [size_t] are 64 bits, [int] 32) *)

Module C.

Definition LONG_MIN : Z := - 2 ^ 63.
Definition LONG_MAX : Z := 2 ^ 63 - 1.
Definition INT_MIN : Z := - 2 ^ 31.
Definition INT_MAX : Z := 2 ^ 31 - 1.
Definition SIZE_MODULUS : Z := 2 ^ 64.

(** Conversion to [unsigned long] / [size_t]. *)
Definition to_ulong (z : Z) : Z := z mod SIZE_MODULUS.

(** Two's complement result of a [long] operation. *)
Definition wrap_long (z : Z) : Z :=
  (z + 2 ^ 63) mod SIZE_MODULUS - 2 ^ 63.

Definition in_long (z : Z) : bool := (LONG_MIN <=? z) && (z <=? LONG_MAX).
Definition in_int (z : Z) : bool := (INT_MIN <=? z) && (z <=? INT_MAX).

(** [sizeof(float)] *)
Definition sizeof_float : Z := 4.

(** ** C strings: a [char] array is read up to its first NUL *)

Definition code (c : ascii) : Z := Z.of_N (N_of_ascii c).
Definition NUL : ascii := Ascii.zero.

Fixpoint c_str (buf : string) : string :=
  match buf with
  | EmptyString => EmptyString
  | String c r => if Ascii.eqb c NUL then EmptyString else String c (c_str r)
  end.

Definition strlen (s : string) : nat := String.length (c_str s).

(** [s[i]]; past the terminator the array of a C string holds NUL here. *)
Definition char_at (s : string) (i : nat) : ascii :=
  match String.get i s with Some c => c | None => NUL end.

(** [s[i] = c] *)
Fixpoint poke (s : string) (i : nat) (c : ascii) : string :=
  match s, i with
  | EmptyString, _ => EmptyString
  | String _ r, O => String c r
  | String a r, S i' => String a (poke r i' c)
  end.

(** [s + n] *)
Fixpoint advance (s : string) (n : nat) {struct n} : string :=
  match n, s with
  | O, _ => s
  | S n', String _ r => advance r n'
  | S _, EmptyString => EmptyString
  end.

Fixpoint strcmp (a b : string) : Z :=
  match a, b with
  | EmptyString, EmptyString => 0
  | EmptyString, String c _ => - code c
  | String c _, EmptyString => code c
  | String c1 r1, String c2 r2 =>
      if Ascii.eqb c1 c2 then strcmp r1 r2 else code c1 - code c2
  end.

Fixpoint strncmp (a b : string) (n : nat) {struct n} : Z :=
  match n with
  | O => 0
  | S n' =>
      match a, b with
      | EmptyString, EmptyString => 0
      | EmptyString, String c _ => - code c
      | String c _, EmptyString => code c
      | String c1 r1, String c2 r2 =>
          if Ascii.eqb c1 c2 then strncmp r1 r2 n' else code c1 - code c2
      end
  end.

(** [strchr(s, c)]: the suffix starting at the first [c], or NULL. *)
Fixpoint strchr (s : string) (c : ascii) : option string :=
  match s with
  | EmptyString => None
  | String a r => if Ascii.eqb a c then Some s else strchr r c
  end.

Definition isspace (c : ascii) : bool :=
  let n := code c in (n =? 32) || ((9 <=? n) && (n <=? 13)).

Definition isdigit (c : ascii) : bool :=
  let n := code c in (48 <=? n) && (n <=? 57).

Definition digit_value (c : ascii) : Z := code c - 48.

Fixpoint skip_space (s : string) : string :=
  match s with
  | String c r => if isspace c then skip_space r else s
  | EmptyString => s
  end.

(** The digit loop of [strtol]: accumulate while digits last, and leave the
    first character that is not a digit at the head of the rest. *)
Fixpoint scan_digits (s : string) (acc : Z) : Z * string :=
  match s with
  | String c r => if isdigit c then scan_digits r (10 * acc + digit_value c) else (acc, s)
  | EmptyString => (acc, s)
  end.

Definition clamp_long (z : Z) : Z :=
  if z <? LONG_MIN then LONG_MIN else if LONG_MAX <? z then LONG_MAX else z.

(** [strtol(nptr, &endptr, 10)]: the value and what [endptr] points at.
    With no digit to convert, the value is 0 and [endptr] is [nptr]. *)
Definition strtol (nptr : string) : Z * string :=
  let s := skip_space nptr in
  let '(neg, body) :=
    match s with
    | String "-" r => (true, r)
    | String "+" r => (false, r)
    | _ => (false, s)
    end in
  match body with
  | String c _ =>
      if isdigit c then
        let '(n, rest) := scan_digits body 0 in
        (clamp_long (if neg then - n else n), rest)
      else (0, nptr)
  | EmptyString => (0, nptr)
  end.

End C.

(** A text with no NUL in it: what a C string holds before its terminator. *)
Inductive nul_free : string -> Prop :=
| nul_free_nil : nul_free EmptyString
| nul_free_cons c s : c <> C.NUL -> nul_free s -> nul_free (String c s).

(** ** What the platform leaves open

    [double] values are opaque to this layer: they are received from the
    VM, handed to CFITSIO and produced by [sscanf].  [sscanf_lf value] is the
    content of [dval] after [sscanf(value, "%lf", &dval)]. *)

Class Platform := {
  double : Type;
  sscanf_lf : string -> double;
}.

(** ** Erlang terms *)

Section Terms.
Context {P : Platform}.

Inductive term : Type :=
| TAtom (name : string)
| TInt (z : Z)
| TFloat (d : double)
| TBinary (bytes : string)
| TList (elems : list term)
| TTuple (elems : list term)
| TMap (pairs : list (term * term)).

(** What a NIF hands back: a term, or the [badarg] exception. *)
Inductive nif_return : Type :=
| Return (t : term)
| Badarg.

Definition enif_make_atom (name : string) : term := TAtom name.
Definition enif_make_int (i : Z) : term := TInt i.
Definition enif_make_long (i : Z) : term := TInt i.
(** [enif_make_double] for a finite [d].  For one that is not finite erl_nif
    raises [badarg] in its place; of the NIFs only [read_header] builds a
    double, so the theorems on [badarg] leave [read_header] out. *)
Definition enif_make_double (d : double) : term := TFloat d.
Definition enif_make_tuple2 (a b : term) : term := TTuple [a; b].
Definition enif_make_tuple3 (a b c : term) : term := TTuple [a; b; c].

(** [enif_make_string(env, s, ERL_NIF_LATIN1)]: the list of character codes. *)
Definition enif_make_string (s : string) : term :=
  TList (map (fun c => TInt (C.code c)) (list_ascii_of_string (C.c_str s))).

End Terms.

(** ** Decoding the value field of a header card ([read_header]) *)

Section Decode.
Context {P : Platform}.

Definition quote : ascii := "'"%char.
Definition point : ascii := "."%char.

(** The classification of [read_header], on the [value] buffer that
    [fits_parse_value] filled. *)
Definition decode_value (buf : string) : term :=
  let value := C.c_str buf in
  if C.strncmp value "'" 1 =? 0 then
    let len := C.strlen value in
    if (2 <=? len)%nat && Ascii.eqb (C.char_at value 0) quote
       && Ascii.eqb (C.char_at value (len - 1)) quote
    then enif_make_string (C.advance (C.poke value (len - 1) C.NUL) 1)
    else enif_make_string value
  else
    match C.strchr value point with
    | Some _ => enif_make_double (sscanf_lf value)
    | None =>
        let '(ival, endptr) := C.strtol value in
        if Ascii.eqb (C.char_at endptr 0) C.NUL
        then enif_make_long ival
        else enif_make_string value
    end.

(** The classification as the specification words it. *)

Definition begins_with_quote (v : string) : bool :=
  match v with String c _ => Ascii.eqb c quote | EmptyString => false end.

Definition ends_with_quote (v : string) : bool :=
  Ascii.eqb (List.last (list_ascii_of_string v) C.NUL) quote.

Definition strip_quotes (v : string) : string :=
  String.substring 1 (String.length v - 2) v.

Definition contains_point (v : string) : bool :=
  existsb (fun c => Ascii.eqb c point) (list_ascii_of_string v).

Definition all_digits (s : string) : bool :=
  forallb C.isdigit (list_ascii_of_string s).

Definition decimal_value (s : string) : Z :=
  fold_left (fun acc c => 10 * acc + C.digit_value c) (list_ascii_of_string s) 0.

(** An integer parse that leaves nothing over: nothing at all, or white
    space, an optional sign and digits to the end of the text. *)
Definition integer_parse (v : string) : option Z :=
  match v with
  | EmptyString => Some 0
  | _ =>
      let s := C.skip_space v in
      let '(neg, ds) :=
        match s with
        | String "-" r => (true, r)
        | String "+" r => (false, r)
        | _ => (false, s)
        end in
      match ds with
      | EmptyString => None
      | _ => if all_digits ds
             then Some (C.clamp_long (if neg then - decimal_value ds else decimal_value ds))
             else None
      end
  end.

Definition decode_value_spec (v : string) : term :=
  if begins_with_quote v then
    enif_make_string
      (if (2 <=? String.length v)%nat && ends_with_quote v then strip_quotes v else v)
  else if contains_point v then enif_make_double (sscanf_lf v)
  else match integer_parse v with
       | Some z => enif_make_long z
       | None => enif_make_string v
       end.

End Decode.

(** ** Constants of [fitsio.h] *)

Module Fits.
Definition READONLY : Z := 0.
Definition READWRITE : Z := 1.
Definition TSTRING : Z := 16.
Definition TLONG : Z := 41.
Definition TFLOAT : Z := 42.
Definition TDOUBLE : Z := 82.
Definition FLOAT_IMG : Z := -32.
Definition FLEN_KEYWORD : nat := 75.
Definition FLEN_VALUE : nat := 71.
End Fits.

(** ** The calls the NIFs make, and programs over them *)

Section Calls.
Context {P : Platform}.

(** A [fitsfile *]. *)
Definition fptr : Type := nat.

(** The value behind the [void *] of [fits_update_key]. *)
Inductive keyval : Type :=
| KLong (ival : Z)
| KDouble (dval : double)
| KString (s : string).

(** An argument of [fprintf]. *)
Inductive farg : Type :=
| FStr (s : string)
| FLong (z : Z)
| FInt (z : Z)
| FSize (z : Z)
| FDouble (d : double).

(** One constructor per external function, indexed by what it answers.
    A CFITSIO function takes the value of [*status] on entry as its last
    argument here; the status in its answer is the value on return, which
    is also what the C function returns.  Output arguments are part of the
    answer.  [debug_float_data], the dump helper of [write_fits.c], only
    prints to [stderr] and is kept as one call.  [free] and
    [enif_map_iterator_destroy] have no answer and no effect this layer can
    see; they are left out. *)
Inductive libcall : Type -> Type :=
| fits_open_file (filename : string) (iomode : Z) (status : Z) : libcall (fptr * Z)
| fits_create_file (filename : string) (status : Z) : libcall (fptr * Z)
| fits_close_file (f : fptr) (status : Z) : libcall Z
| fits_get_img_param (f : fptr) (maxdim : Z) (naxes : list Z) (status : Z)
    : libcall (Z * Z * list Z * Z)
| fits_read_pix (f : fptr) (datatype : Z) (fpixel : list Z) (nelem : Z) (status : Z)
    : libcall (string * Z)
| fits_create_img (f : fptr) (bitpix : Z) (naxis : Z) (naxes : list Z) (status : Z)
    : libcall Z
| fits_write_pix (f : fptr) (datatype : Z) (fpixel : list Z) (nelem : Z)
    (array : string) (status : Z) : libcall Z
| fits_get_hdrpos (f : fptr) (status : Z) : libcall (Z * Z * Z)
| fits_read_record (f : fptr) (keynum : Z) (status : Z) : libcall (string * Z)
| fits_get_keyname (card : string) (status : Z) : libcall (string * Z * Z)
| fits_parse_value (card : string) (status : Z) : libcall (string * string * Z)
| fits_movabs_hdu (f : fptr) (hdunum : Z) (status : Z) : libcall Z
| fits_update_key (f : fptr) (datatype : Z) (keyname : string) (value : keyval)
    (status : Z) : libcall Z
| fits_get_errstatus (status : Z) : libcall string
| fopen_r (filename : string) : libcall bool
| fclose : libcall unit
| remove (filename : string) : libcall unit
| malloc (size : Z) : libcall bool
| enif_alloc_binary (size : Z) : libcall bool
| fprintf_stderr (format : string) (args : list farg) : libcall unit
| debug_float_data (data : string) (nbytes : Z) (label : string) : libcall unit.

Inductive prog (R : Type) : Type :=
| Ret (r : R)
| Vis {X : Type} (c : libcall X) (k : X -> prog R).

Global Arguments Ret {R} r.
Global Arguments Vis {R X} c k.

Fixpoint bind {A B : Type} (m : prog A) (f : A -> prog B) : prog B :=
  match m with
  | Ret a => f a
  | Vis c k => Vis c (fun x => bind (k x) f)
  end.

Definition call {X : Type} (c : libcall X) : prog X := Vis c Ret.

Global Instance prog_ret : MRet prog := @Ret.
Global Instance prog_bind : MBind prog := fun A B f m => bind m f.

(** *** Running a program against an implementation of the calls *)

Inductive event : Type :=
| Ev {X : Type} (c : libcall X) (answer : X).

Definition handler (W : Type) : Type := forall X, libcall X -> W -> X * W.

Record outcome (W R : Type) : Type := Outcome {
  result : R;
  final : W;
  trace : list event;
}.
Global Arguments Outcome {W R} _ _ _.
Global Arguments result {W R} _.
Global Arguments final {W R} _.
Global Arguments trace {W R} _.

Fixpoint exec {W R : Type} (h : handler W) (p : prog R) (w : W) : outcome W R :=
  match p with
  | Ret r => Outcome r w []
  | Vis c k =>
      let '(x, w') := h _ c w in
      let o := exec h (k x) w' in
      Outcome (result o) (final o) (Ev c x :: trace o)
  end.

End Calls.

(** ** The [erl_nif.h] accessors the NIFs use *)

Section Accessors.
Context {P : Platform}.

Definition enif_inspect_binary (t : term) : option string :=
  match t with TBinary b => Some b | _ => None end.

(** [bin.size] *)
Definition binary_size (b : string) : Z := Z.of_nat (String.length b).

Definition enif_get_long (t : term) : option Z :=
  match t with
  | TInt z => if C.in_long z then Some z else None
  | _ => None
  end.

Definition enif_get_int (t : term) : option Z :=
  match t with
  | TInt z => if C.in_int z then Some z else None
  | _ => None
  end.

Definition enif_get_double (t : term) : option double :=
  match t with TFloat d => Some d | _ => None end.

Definition enif_is_number (t : term) : bool :=
  match t with TInt _ | TFloat _ => true | _ => false end.

Definition enif_is_binary (t : term) : bool :=
  match t with TBinary _ => true | _ => false end.

Definition enif_is_list (t : term) : bool :=
  match t with TList _ => true | _ => false end.

Definition enif_is_map (t : term) : bool :=
  match t with TMap _ => true | _ => false end.

(** [enif_get_atom(env, t, buf, size, ERL_NIF_LATIN1)]: the name, when [t]
    is an atom whose name and terminator fit in [size] bytes. *)
Definition enif_get_atom (t : term) (size : nat) : option string :=
  match t with
  | TAtom name => if (String.length name + 1 <=? size)%nat then Some name else None
  | _ => None
  end.

Definition byte_of_term (t : term) : option ascii :=
  match t with
  | TInt z => if (0 <=? z) && (z <=? 255) then Some (ascii_of_N (Z.to_N z)) else None
  | _ => None
  end.

(** The loop of [enif_get_string]: [n] characters are in the buffer. The
    answer is the return value and the characters written from here on. *)
Fixpoint enif_get_string_loop (l : list term) (n len : nat) : Z * string :=
  match l with
  | [] => (Z.of_nat n + 1, EmptyString)
  | t :: l' =>
      match byte_of_term t with
      | None => (0, EmptyString)
      | Some c =>
          if (len <=? S n)%nat then (- Z.of_nat len, EmptyString)
          else let '(r, s) := enif_get_string_loop l' (S n) len in (r, String c s)
      end
  end.

(** [enif_get_string(env, t, buf, len, ERL_NIF_LATIN1)]: positive when the
    whole list of Latin-1 codes was written, negative when it was cut at
    [len - 1] characters, 0 when [t] is no such list (a binary is none). *)
Definition enif_get_string (t : term) (len : nat) : Z * string :=
  match len with
  | O => (0, EmptyString)
  | _ =>
      match t with
      | TList l => enif_get_string_loop l 0 len
      | _ => (0, EmptyString)
      end
  end.

Definition atom_ok : term := enif_make_atom "ok".
Definition atom_error : term := enif_make_atom "error".

Definition error_status (status : Z) : nif_return :=
  Return (enif_make_tuple2 atom_error (enif_make_int status)).

Definition error_atom (reason : string) : nif_return :=
  Return (enif_make_tuple2 atom_error (enif_make_atom reason)).

Definition nonzero (status : Z) : bool := negb (status =? 0).

(** [argv[i]] inspected as a binary; the arities registered in
    [nif_funcs] keep [i] below [argc] at every use. *)
Definition arg_binary (argv : list term) (i : nat) : option string :=
  match nth_error argv i with
  | Some t => enif_inspect_binary t
  | None => None
  end.

Definition arg_long (argv : list term) (i : nat) : option Z :=
  match nth_error argv i with
  | Some t => enif_get_long t
  | None => None
  end.

Definition arg_int (argv : list term) (i : nat) : option Z :=
  match nth_error argv i with
  | Some t => enif_get_int t
  | None => None
  end.

(** [sizeof(filename)] *)
Definition FILENAME_SIZE : Z := 1024.

(** [width * height * sizeof(float)]: a [long] product converted to
    [size_t] and multiplied there. *)
Definition expected_bytes (width height : Z) : Z :=
  C.to_ulong (C.to_ulong (C.wrap_long (width * height)) * C.sizeof_float).

(** [npixels * sizeof(float)] *)
Definition pixel_bytes (npixels : Z) : Z :=
  C.to_ulong (C.to_ulong npixels * C.sizeof_float).

Definition string_take (n : nat) (s : string) : string := String.substring 0 n s.

End Accessors.

(** ** [exfits_nif.c] *)

Section Nif.
Context {P : Platform}.

(** [hello] *)
Definition hello : nif_return := Return (enif_make_atom "nif_loaded").

(** [open_fits] *)
Definition open_fits (argv : list term) : prog nif_return :=
  match arg_binary argv 0 with
  | None => Ret Badarg
  | Some bin =>
      if FILENAME_SIZE <=? binary_size bin then Ret Badarg else
      let filename := C.c_str bin in
      '(f, status) ← call (fits_open_file filename Fits.READONLY 0);
      if nonzero status then Ret (error_status status) else
      _ ← call (fits_close_file f status);
      Ret (Return atom_ok)
  end.

(** [read_image] *)
Definition read_image (argv : list term) : prog nif_return :=
  match arg_binary argv 0 with
  | None => Ret Badarg
  | Some bin_filename =>
      if FILENAME_SIZE <=? binary_size bin_filename then Ret Badarg else
      let filename := C.c_str bin_filename in
      '(f, status) ← call (fits_open_file filename Fits.READONLY 0);
      if nonzero status then Ret (error_status status) else
      '(bitpix, naxis, naxes, status) ← call (fits_get_img_param f 2 [1; 1] status);
      if nonzero status || negb (naxis =? 2) then
        status ← call (fits_close_file f status);
        Ret (error_status status)
      else
      let npixels := C.wrap_long (nth 0 naxes 1 * nth 1 naxes 1) in
      _ ← call (malloc (pixel_bytes npixels));
      '(pixels, status) ← call (fits_read_pix f Fits.TFLOAT [1; 1] npixels status);
      let width_term := enif_make_long (nth 0 naxes 1) in
      let height_term := enif_make_long (nth 1 naxes 1) in
      status ← call (fits_close_file f status);
      if nonzero status then Ret (error_status status) else
      allocated ← call (enif_alloc_binary (pixel_bytes npixels));
      if negb allocated then Ret (Return atom_error) else
      let bin_pixels := TBinary (string_take (Z.to_nat (pixel_bytes npixels)) pixels) in
      Ret (Return (enif_make_tuple2 atom_ok
                     (enif_make_tuple3 width_term height_term bin_pixels)))
  end.

(** [write_image] *)
Definition write_image (argv : list term) : prog nif_return :=
  let argc := length argv in
  if (argc <? 4)%nat || (5 <? argc)%nat then Ret Badarg else
  match arg_binary argv 0 with
  | None => Ret Badarg
  | Some bin_filename =>
  if FILENAME_SIZE <=? binary_size bin_filename then Ret Badarg else
  let filename := C.c_str bin_filename in
  match arg_binary argv 1 with
  | None => Ret Badarg
  | Some bin_data =>
  match arg_long argv 2, arg_long argv 3 with
  | Some width, Some height =>
  match (if (argc =? 5)%nat then arg_int argv 4 else Some Fits.FLOAT_IMG) with
  | None => Ret Badarg
  | Some bitpix =>
      if negb (expected_bytes width height =? binary_size bin_data)
      then Ret (error_atom "dimensions_mismatch") else
      let naxes := [width; height] in
      '(f, status) ← call (fits_create_file filename 0);
      if nonzero status then Ret (error_status status) else
      status ← call (fits_create_img f bitpix 2 naxes status);
      if nonzero status then
        status ← call (fits_close_file f status);
        Ret (error_status status)
      else
      let npixels := C.wrap_long (width * height) in
      status ← call (fits_write_pix f Fits.TFLOAT [1; 1] npixels bin_data status);
      if nonzero status then
        status ← call (fits_close_file f status);
        Ret (error_status status)
      else
      status ← call (fits_close_file f status);
      if nonzero status then Ret (error_status status) else
      Ret (Return atom_ok)
  end
  | _, _ => Ret Badarg
  end
  end
  end.

(** [enif_make_map_put] with an atom as the key: the value of a key that
    is there is replaced, a new key is added. *)
Fixpoint map_put (name : string) (v : term) (pairs : list (term * term))
  : list (term * term) :=
  match pairs with
  | [] => [(TAtom name, v)]
  | (k, old) :: rest =>
      match k with
      | TAtom n => if String.eqb n name then (k, v) :: rest
                   else (k, old) :: map_put name v rest
      | _ => (k, old) :: map_put name v rest
      end
  end.

(** The [for] loop of [read_header], from record [i] on, [count] records
    to go: the status and the map at the end, or what an early [return]
    gives. *)
Fixpoint read_records (f : fptr) (count : nat) (i : Z) (status : Z)
    (header_map : list (term * term)) : prog (nif_return + Z * list (term * term)) :=
  match count with
  | O => Ret (inr (status, header_map))
  | S count' =>
      '(card, status) ← call (fits_read_record f i status);
      if nonzero status then
        status ← call (fits_close_file f status);
        Ret (inl (error_status status))
      else
      '(key, keylen, status) ← call (fits_get_keyname card status);
      if status =? 0 then
        let key := C.c_str key in
        if nonzero (C.strcmp key "COMMENT") && nonzero (C.strcmp key "HISTORY")
           && (0 <? C.strlen key)%nat
        then
          '(value, comment, status) ← call (fits_parse_value card status);
          let value_term := decode_value value in
          read_records f count' (i + 1) status (map_put key value_term header_map)
        else read_records f count' (i + 1) status header_map
      else read_records f count' (i + 1) status header_map
  end.

(** [read_header] *)
Definition read_header (argv : list term) : prog nif_return :=
  match arg_binary argv 0 with
  | None => Ret Badarg
  | Some bin_filename =>
      if FILENAME_SIZE <=? binary_size bin_filename then Ret Badarg else
      let filename := C.c_str bin_filename in
      '(f, status) ← call (fits_open_file filename Fits.READONLY 0);
      if nonzero status then Ret (error_status status) else
      '(nkeys, keypos, status) ← call (fits_get_hdrpos f status);
      if nonzero status then
        status ← call (fits_close_file f status);
        Ret (error_status status)
      else
      r ← read_records f (Z.to_nat nkeys) 1 status [];
      match r with
      | inl early => Ret early
      | inr (status, header_map) =>
          status ← call (fits_close_file f status);
          if nonzero status then Ret (error_status status) else
          Ret (Return (enif_make_tuple2 atom_ok (TMap header_map)))
      end
  end.

(** The keywords neither writer touches. *)
Definition skip_keys : list string :=
  ["SIMPLE"; "BITPIX"; "NAXIS"; "NAXIS1"; "NAXIS2"; "NAXIS3"; "END"].

(** The [for] loop over [skip_keys]. *)
Definition is_skip_key (key_str : string) : bool :=
  existsb (fun k => C.strcmp key_str k =? 0) skip_keys.

(** What [write_header_cards] prints when an update fails. *)
Definition log_update_failure (key_str : string) (shown : list farg) (format : string)
    (key_status : Z) : prog unit :=
  if nonzero key_status then
    error_text ← call (fits_get_errstatus key_status);
    call (fprintf_stderr format
            ([FStr key_str] ++ shown ++ [FInt key_status; FStr error_text]))
  else Ret tt.

(** The value dispatch of [write_header_cards]: the [key_status] it leaves. *)
Definition cards_update (f : fptr) (key_str : string) (value : term) : prog Z :=
  if enif_is_number value then
    match enif_get_long value with
    | Some ival =>
        key_status ← call (fits_update_key f Fits.TLONG key_str (KLong ival) 0);
        _ ← log_update_failure key_str [FLong ival]
              "FITS error updating key '%s' with value %ld: %d (%s)\n" key_status;
        Ret key_status
    | None =>
        match enif_get_double value with
        | Some dval =>
            key_status ← call (fits_update_key f Fits.TDOUBLE key_str (KDouble dval) 0);
            _ ← log_update_failure key_str [FDouble dval]
                  "FITS error updating key '%s' with value %f: %d (%s)\n" key_status;
            Ret key_status
        | None => Ret 0
        end
    end
  else if enif_is_binary value || enif_is_list value then
    let '(n, value_buf) := enif_get_string value Fits.FLEN_VALUE in
    if 0 <? n then
      let value_str := C.c_str value_buf in
      key_status ← call (fits_update_key f Fits.TSTRING key_str (KString value_str) 0);
      _ ← log_update_failure key_str []
            "FITS error updating key '%s' with string value: %d (%s)\n" key_status;
      Ret key_status
    else Ret 0
  else Ret 0.

(** One turn of the [do] loop of [write_header_cards] on a pair of the
    map; [true] when the turn ends in [break].  [status] is the function's
    own status, which no turn assigns. *)
Definition cards_turn (f : fptr) (status : Z) (kv : term * term) : prog bool :=
  let '(key, value) := kv in
  match enif_get_atom key Fits.FLEN_KEYWORD with
  | None => Ret false
  | Some key_buf =>
      let key_str := C.c_str key_buf in
      if is_skip_key key_str then Ret false else
      key_status ← cards_update f key_str value;
      _ ← (if 0 <? key_status then
             call (fprintf_stderr
                     "Warning: Failed to update key '%s', continuing with others\n"
                     [FStr key_str])
           else Ret tt);
      Ret (0 <? status)
  end.

(** The [do ... while (enif_map_iterator_next(...))] loop over the pairs of
    the map in iteration order; on the empty map the one turn finds no pair.
    [enif_get_map_size] and [enif_map_iterator_create] cannot fail on a term
    that passed [enif_is_map]. *)
Fixpoint cards_loop (f : fptr) (status : Z) (pairs : list (term * term)) : prog unit :=
  match pairs with
  | [] => Ret tt
  | kv :: rest =>
      stop ← cards_turn f status kv;
      if (stop : bool) then Ret tt else cards_loop f status rest
  end.

(** [write_header_cards] *)
Definition write_header_cards (argv : list term) : prog nif_return :=
  match arg_binary argv 0 with
  | None => Ret Badarg
  | Some bin_filename =>
  if FILENAME_SIZE <=? binary_size bin_filename then Ret Badarg else
  let filename := C.c_str bin_filename in
  match nth_error argv 1 with
  | Some (TMap header_map) =>
      exists_ ← call (fopen_r filename);
      if negb exists_ then Ret (error_atom "file_not_found") else
      _ ← call fclose;
      '(f, status) ← call (fits_open_file filename Fits.READWRITE 0);
      if nonzero status then Ret (error_status status) else
      status ← call (fits_movabs_hdu f 1 status);
      if nonzero status then
        status ← call (fits_close_file f status);
        Ret (error_status status)
      else
      _ ← cards_loop f status header_map;
      status ← call (fits_close_file f status);
      if nonzero status then Ret (error_status status) else
      Ret (Return atom_ok)
  | _ => Ret Badarg
  end
  end.

End Nif.

(** ** [write_fits.c]

    [write_header_to_fits], the helper for lists of ready-made cards, is
    called by no NIF and is not part of the model. *)

Section WriteFits.
Context {P : Platform}.

(** The value dispatch of [write_fits_file]: the [key_status] it leaves. *)
Definition file_update (f : fptr) (key_str : string) (value : term) : prog Z :=
  if enif_is_number value then
    match enif_get_long value with
    | Some ival =>
        _ ← call (fprintf_stderr "Updating header key %s = %ld (integer)\n"
                    [FStr key_str; FLong ival]);
        call (fits_update_key f Fits.TLONG key_str (KLong ival) 0)
    | None =>
        match enif_get_double value with
        | Some dval =>
            _ ← call (fprintf_stderr "Updating header key %s = %f (double)\n"
                        [FStr key_str; FDouble dval]);
            call (fits_update_key f Fits.TDOUBLE key_str (KDouble dval) 0)
        | None => Ret 0
        end
    end
  else if enif_is_binary value || enif_is_list value then
    let '(n, value_buf) := enif_get_string value Fits.FLEN_VALUE in
    if 0 <? n then
      let value_str := C.c_str value_buf in
      _ ← call (fprintf_stderr "Updating header key %s = '%s' (string)\n"
                  [FStr key_str; FStr value_str]);
      call (fits_update_key f Fits.TSTRING key_str (KString value_str) 0)
    else Ret 0
  else Ret 0.

(** One turn of the [do] loop of [write_fits_file] on a pair of the map. *)
Definition file_turn (f : fptr) (kv : term * term) : prog unit :=
  let '(key, value) := kv in
  match enif_get_atom key Fits.FLEN_KEYWORD with
  | None => Ret tt
  | Some key_buf =>
      let key_str := C.c_str key_buf in
      if is_skip_key key_str then
        call (fprintf_stderr "Skipping header key: %s\n" [FStr key_str])
      else
      key_status ← file_update f key_str value;
      if nonzero key_status then
        error_text ← call (fits_get_errstatus key_status);
        call (fprintf_stderr "Warning: Failed to update header key '%s': %s (%d)\n"
                [FStr key_str; FStr error_text; FInt key_status])
      else Ret tt
  end.

Fixpoint file_loop (f : fptr) (pairs : list (term * term)) : prog unit :=
  match pairs with
  | [] => Ret tt
  | kv :: rest => _ ← file_turn f kv; file_loop f rest
  end.

(** The sixth argument: no map at all ([has_header = 0]), the pairs of the
    map, or a term that is no map. *)
Definition header_argument (argv : list term) : option (option (list (term * term))) :=
  if (length argv =? 6)%nat then
    match nth_error argv 5 with
    | Some (TMap header_map) => Some (Some header_map)
    | _ => None
    end
  else Some None.

(** What each failing stage prints before it returns. *)
Definition report (format : string) (status : Z) : prog unit :=
  error_text ← call (fits_get_errstatus status);
  call (fprintf_stderr format [FStr error_text; FInt status]).

(** [write_fits_file] *)
Definition write_fits_file (argv : list term) : prog nif_return :=
  let argc := length argv in
  if (argc <? 4)%nat || (6 <? argc)%nat then Ret Badarg else
  match arg_binary argv 0 with
  | None => Ret Badarg
  | Some bin_filename =>
  if FILENAME_SIZE <=? binary_size bin_filename then Ret Badarg else
  let filename := C.c_str bin_filename in
  match arg_binary argv 1 with
  | None => Ret Badarg
  | Some bin_data =>
  _ ← call (debug_float_data bin_data (binary_size bin_data) "input data");
  match arg_long argv 2, arg_long argv 3 with
  | Some width, Some height =>
  match (if (5 <=? argc)%nat then arg_int argv 4 else Some Fits.FLOAT_IMG) with
  | None => Ret Badarg
  | Some bitpix =>
  match header_argument argv with
  | None => Ret Badarg
  | Some header =>
      if negb (expected_bytes width height =? binary_size bin_data) then
        _ ← call (fprintf_stderr
                    "ERROR: Dimensions mismatch - width=%ld, height=%ld, expected bytes=%ld, actual bytes=%zu\n"
                    [FLong width; FLong height; FLong (expected_bytes width height);
                     FSize (binary_size bin_data)]);
        Ret (error_atom "dimensions_mismatch")
      else
      _ ← call (fprintf_stderr "Creating FITS file: %s\n" [FStr filename]);
      _ ← call (fprintf_stderr "Dimensions: %ldx%ld (%ld pixels)\n"
                  [FLong width; FLong height; FLong (C.wrap_long (width * height))]);
      _ ← call (fprintf_stderr "BITPIX: %d\n" [FInt bitpix]);
      allocated ← call (malloc (binary_size bin_data));
      if negb allocated then
        _ ← call (fprintf_stderr "Failed to allocate memory for pixel data\n" []);
        Ret (error_atom "memory_allocation_failure")
      else
      let pixels := bin_data in
      _ ← call (debug_float_data pixels (binary_size bin_data) "copied data");
      let naxes := [width; height] in
      _ ← call (remove filename);
      '(f, status) ← call (fits_create_file filename 0);
      if nonzero status then
        _ ← report "Error creating FITS file: %s (status=%d)\n" status;
        Ret (error_status status)
      else
      status ← call (fits_create_img f bitpix 2 naxes status);
      if nonzero status then
        _ ← report "Error creating image: %s (status=%d)\n" status;
        status ← call (fits_close_file f status);
        Ret (error_status status)
      else
      let npixels := C.wrap_long (width * height) in
      _ ← call (fprintf_stderr "Writing %ld pixels as TFLOAT\n" [FLong npixels]);
      status ← call (fits_write_pix f Fits.TFLOAT [1; 1] npixels pixels status);
      if nonzero status then
        _ ← report "Error writing pixels: %s (status=%d)\n" status;
        status ← call (fits_close_file f status);
        Ret (error_status status)
      else
      _ ← match header with
          | Some header_map =>
              _ ← call (fprintf_stderr "Writing header cards\n" []);
              file_loop f header_map
          | None => Ret tt
          end;
      status ← call (fits_close_file f status);
      if nonzero status then
        _ ← report "Error closing file: %s (status=%d)\n" status;
        Ret (error_status status)
      else
      _ ← call (fprintf_stderr "Successfully wrote FITS file: %s\n" [FStr filename]);
      Ret (Return atom_ok)
  end
  end
  | _, _ => Ret Badarg
  end
  end
  end.

End WriteFits.

(** ** A reference implementation of the calls

    What the CFITSIO manual and section 6 of the specification promise of
    the external library, as far as files and images go, on a disk that is
    a finite map from file names to files.  File names are taken literally
    (no extended file name syntax), images are transferred as [TFLOAT] only,
    and allocation never fails.  The header unit of a file and the texts of
    CFITSIO are not part of it: the calls about them are answered by
    [header_call], whatever it is. *)

Class RefParams {P : Platform} := {
  (** what a [TFLOAT] transfer gives back from an image of another [BITPIX] *)
  requantize : Z -> string -> string;
  header_store : Type;
  header_call : forall X, libcall X -> header_store -> X * header_store;
}.

Module Ref.
Section Ref.
Context {P : Platform} {RP : RefParams}.

Definition FILE_NOT_OPENED : Z := 104.
Definition FILE_NOT_CREATED : Z := 105.
Definition END_OF_FILE : Z := 107.
Definition READONLY_FILE : Z := 112.
Definition BAD_FILEPTR : Z := 114.
Definition BAD_BITPIX : Z := 211.
Definition BAD_NAXIS : Z := 212.
Definition BAD_NAXES : Z := 213.
Definition NOT_IMAGE : Z := 233.
Definition BAD_ELEM_NUM : Z := 308.
Definition BAD_DATATYPE : Z := 410.

(** The primary array: the bytes written so far as [TFLOAT] samples, from
    the first pixel on; what was never written reads as zero bytes. *)
Record image : Type := Image {
  img_bitpix : Z;
  img_naxes : list Z;
  img_pixels : string;
}.

Record world : Type := World {
  disk : gmap string (option image);
  handles : gmap nat (string * Z);
  next_handle : nat;
  stderr : list (string * list farg);
  headers : header_store;
}.

Definition with_disk (w : world) (d : gmap string (option image)) : world :=
  World d (handles w) (next_handle w) (stderr w) (headers w).

Definition with_stderr (w : world) (line : string * list farg) : world :=
  World (disk w) (handles w) (next_handle w) (stderr w ++ [line]) (headers w).

Definition open_handle (w : world) (name : string) (iomode : Z) : fptr * world :=
  (next_handle w,
   World (disk w) (<[next_handle w := (name, iomode)]> (handles w))
         (S (next_handle w)) (stderr w) (headers w)).

Definition close_handle (w : world) (f : fptr) : world :=
  World (disk w) (delete f (handles w)) (next_handle w) (stderr w) (headers w).

(** The image behind a handle, with the name and mode of its file. *)
Definition image_of (w : world) (f : fptr) : Z + (string * Z * image) :=
  match handles w !! f with
  | None => inl BAD_FILEPTR
  | Some (name, iomode) =>
      match disk w !! name with
      | Some (Some img) => inr (name, iomode, img)
      | _ => inl NOT_IMAGE
      end
  end.

Definition valid_bitpix (bitpix : Z) : bool :=
  existsb (Z.eqb bitpix) [8; 16; 32; 64; -32; -64].

Definition npixels_of (naxes : list Z) : Z := fold_right Z.mul 1 naxes.

(** Pixels before the one at [fpixel] (coordinates from 1). *)
Fixpoint pixel_offset (fpixel naxes : list Z) : Z :=
  match fpixel, naxes with
  | p :: fpixel', n :: naxes' => (p - 1) + n * pixel_offset fpixel' naxes'
  | _, _ => 0
  end.

Fixpoint zeros (n : nat) : string :=
  match n with
  | O => EmptyString
  | S n' => String C.NUL (zeros n')
  end.

(** [n] bytes of [s] from byte [off] on, zero bytes where [s] has ended. *)
Definition bytes_from (s : string) (off n : nat) : string :=
  let got := String.substring off n s in
  got ++ zeros (n - String.length got).

(** [s] with [data] laid over it from byte [off] on. *)
Definition overwrite (s : string) (off : nat) (data : string) : string :=
  bytes_from s 0 off ++ data
  ++ String.substring (off + String.length data)
       (String.length s - (off + String.length data)) s.

(** The samples of an image as a [TFLOAT] transfer returns them. *)
Definition samples (img : image) : string :=
  if img_bitpix img =? Fits.FLOAT_IMG then img_pixels img
  else requantize (img_bitpix img) (img_pixels img).

Definition in_image (img : image) (fpixel : list Z) (nelem : Z) : bool :=
  (0 <=? pixel_offset fpixel (img_naxes img)) && (0 <=? nelem)
  && (pixel_offset fpixel (img_naxes img) + nelem <=? npixels_of (img_naxes img)).

(** The axis lengths [fits_get_img_param] writes into [naxes]. *)
Fixpoint fill_naxes (maxdim : nat) (stored naxes : list Z) : list Z :=
  match maxdim, stored, naxes with
  | S m, s :: stored', _ :: naxes' => s :: fill_naxes m stored' naxes'
  | _, _, _ => naxes
  end.

Definition ref_call : handler world :=
  fun X (c : libcall X) =>
  match c in libcall X return world -> X * world with
  | fits_open_file filename iomode status => fun w =>
      if 0 <? status then ((O, status), w) else
      if String.eqb filename EmptyString then ((O, FILE_NOT_OPENED), w) else
      match disk w !! filename with
      | None => ((O, FILE_NOT_OPENED), w)
      | Some None => ((O, END_OF_FILE), w)
      | Some (Some _) =>
          let '(f, w') := open_handle w filename iomode in ((f, 0), w')
      end
  | fits_create_file filename status => fun w =>
      if 0 <? status then ((O, status), w) else
      if String.eqb filename EmptyString then ((O, FILE_NOT_CREATED), w) else
      match disk w !! filename with
      | Some _ => ((O, FILE_NOT_CREATED), w)
      | None =>
          let '(f, w') := open_handle (with_disk w (<[filename := None]> (disk w)))
                            filename Fits.READWRITE in
          ((f, 0), w')
      end
  | fits_close_file f status => fun w =>
      match handles w !! f with
      | None => (if 0 <? status then status else BAD_FILEPTR, w)
      | Some _ => (status, close_handle w f)
      end
  | fits_get_img_param f maxdim naxes status => fun w =>
      if 0 <? status then ((0, 0, naxes, status), w) else
      match image_of w f with
      | inl e => ((0, 0, naxes, e), w)
      | inr (_, _, img) =>
          ((img_bitpix img, Z.of_nat (length (img_naxes img)),
            fill_naxes (Z.to_nat maxdim) (img_naxes img) naxes, 0), w)
      end
  | fits_read_pix f datatype fpixel nelem status => fun w =>
      if 0 <? status then ((EmptyString, status), w) else
      match image_of w f with
      | inl e => ((EmptyString, e), w)
      | inr (_, _, img) =>
          if negb (datatype =? Fits.TFLOAT) then ((EmptyString, BAD_DATATYPE), w) else
          if negb (in_image img fpixel nelem) then ((EmptyString, BAD_ELEM_NUM), w) else
          ((bytes_from (samples img)
              (Z.to_nat (4 * pixel_offset fpixel (img_naxes img)))
              (Z.to_nat (4 * nelem)), 0), w)
      end
  | fits_create_img f bitpix naxis naxes status => fun w =>
      if 0 <? status then (status, w) else
      match handles w !! f with
      | None => (BAD_FILEPTR, w)
      | Some (name, iomode) =>
          if iomode =? Fits.READONLY then (READONLY_FILE, w) else
          if negb (valid_bitpix bitpix) then (BAD_BITPIX, w) else
          if (naxis <? 0) || (999 <? naxis) then (BAD_NAXIS, w) else
          if existsb (fun n => n <? 0) (firstn (Z.to_nat naxis) naxes)
          then (BAD_NAXES, w) else
          (0, with_disk w
                (<[name := Some (Image bitpix (firstn (Z.to_nat naxis) naxes)
                                   EmptyString)]> (disk w)))
      end
  | fits_write_pix f datatype fpixel nelem array status => fun w =>
      if 0 <? status then (status, w) else
      match image_of w f with
      | inl e => (e, w)
      | inr (name, iomode, img) =>
          if iomode =? Fits.READONLY then (READONLY_FILE, w) else
          if negb (datatype =? Fits.TFLOAT) then (BAD_DATATYPE, w) else
          if negb (in_image img fpixel nelem) then (BAD_ELEM_NUM, w) else
          (0, with_disk w
                (<[name := Some (Image (img_bitpix img) (img_naxes img)
                    (overwrite (img_pixels img)
                       (Z.to_nat (4 * pixel_offset fpixel (img_naxes img)))
                       (bytes_from array 0 (Z.to_nat (4 * nelem)))))]> (disk w)))
      end
  | fopen_r filename => fun w => (bool_decide (is_Some (disk w !! filename)), w)
  | fclose => fun w => (tt, w)
  | remove filename => fun w => (tt, with_disk w (delete filename (disk w)))
  | malloc _ => fun w => (true, w)
  | enif_alloc_binary _ => fun w => (true, w)
  | fprintf_stderr format args => fun w => (tt, with_stderr w (format, args))
  | debug_float_data _ nbytes label => fun w =>
      (tt, with_stderr w ("debug_float_data", [FStr label; FSize nbytes]))
  | c' => fun w =>
      let '(x, hs) := header_call _ c' (headers w) in
      (x, World (disk w) (handles w) (next_handle w) (stderr w) hs)
  end.

(** A name under which [fits_create_file] can make a file, as a binary
    that fits the [filename] buffer and holds no NUL. *)
Definition creatable (w : world) (path : string) : Prop :=
  binary_size path < FILENAME_SIZE
  /\ C.c_str path = path
  /\ path <> EmptyString
  /\ disk w !! path = None.

End Ref.
End Ref.

(** ** What a trace shows *)

Section Observations.
Context {P : Platform}.

(** A header update: type tag, keyword, value, and the status answered. *)
Definition update_of (e : event) : option (Z * string * keyval * Z) :=
  match e with
  | Ev c x =>
      match c in libcall X return X -> option (Z * string * keyval * Z) with
      | fits_update_key _ datatype keyname value _ =>
          fun st => Some (datatype, keyname, value, st)
      | _ => fun _ => None
      end x
  end.

Definition updates (tr : list event) : list (Z * string * keyval * Z) :=
  omap update_of tr.

Definition attempt (u : Z * string * keyval * Z) : Z * string * keyval :=
  let '(datatype, keyname, value, _) := u in (datatype, keyname, value).

Definition updated_key (e : event) : option string :=
  match update_of e with
  | Some (_, keyname, _, _) => Some keyname
  | None => None
  end.

(** Output to [stderr] only. *)
Definition is_stderr (e : event) : bool :=
  match e with
  | Ev c _ =>
      match c with
      | fprintf_stderr _ _ | debug_float_data _ _ _ => true
      | _ => false
      end
  end.

Definition creates (e : event) : option string :=
  match e with
  | Ev c _ =>
      match c with
      | fits_create_file filename _ => Some filename
      | _ => None
      end
  end.

Definition removes (e : event) : option string :=
  match e with
  | Ev c _ =>
      match c with
      | remove filename => Some filename
      | _ => None
      end
  end.

Definition reads_pixels (e : event) : bool :=
  match e with
  | Ev c _ =>
      match c with
      | fits_read_pix _ _ _ _ _ => true
      | _ => false
      end
  end.

(** The axis count [fits_get_img_param] answered on success. *)
Definition axis_count (e : event) : option Z :=
  match e with
  | Ev c x =>
      match c in libcall X return X -> option Z with
      | fits_get_img_param _ _ _ _ =>
          fun '(_, naxis, _, status) => if status =? 0 then Some naxis else None
      | _ => fun _ => None
      end x
  end.



(** A diagnostic line about keyword [key] with status [st]. *)
Definition diagnoses (key : string) (st : Z) (e : event) : bool :=
  match e with
  | Ev c _ =>
      match c with
      | fprintf_stderr _ args =>
          existsb (fun a => match a with FStr s => String.eqb s key | _ => false end) args
          && existsb (fun a => match a with FInt z => z =? st | _ => false end) args
      | _ => false
      end
  end.

Definition asks_errstatus (st : Z) (e : event) : bool :=
  match e with
  | Ev c _ =>
      match c with
      | fits_get_errstatus st' => st' =? st
      | _ => false
      end
  end.

(** Every update that answered a status other than 0 is followed at once
    by the text of that status being fetched and a line to [stderr] that
    names the keyword and the status. *)
Fixpoint failures_logged (tr : list event) : bool :=
  match tr with
  | [] => true
  | e :: rest =>
      match update_of e with
      | Some (_, key, _, st) =>
          if st =? 0 then failures_logged rest
          else match rest with
               | e1 :: e2 :: _ =>
                   asks_errstatus st e1 && diagnoses key st e2 && failures_logged rest
               | _ => false
               end
      | None => failures_logged rest
      end
  end.

(** The update an entry of the map asks for, by the type of its value:
    the entries that can be applied one by one. *)
Definition planned (kv : term * term) : option (Z * string * keyval) :=
  let '(key, value) := kv in
  match key with
  | TAtom name =>
      if (String.length name + 1 <=? Fits.FLEN_KEYWORD)%nat
         && negb (is_skip_key (C.c_str name))
      then
        match value with
        | TInt z => if C.in_long z then Some (Fits.TLONG, C.c_str name, KLong z) else None
        | TFloat d => Some (Fits.TDOUBLE, C.c_str name, KDouble d)
        | TList l =>
            let '(n, text) := enif_get_string (TList l) Fits.FLEN_VALUE in
            if 0 <? n then Some (Fits.TSTRING, C.c_str name, KString (C.c_str text)) else None
        | _ => None
        end
      else None
  | _ => None
  end.

(** An entry neither writer can do anything with: the key is no atom that
    fits the keyword buffer, or the value is neither a number nor a list
    of Latin-1 codes that fits the value buffer. *)
Definition unusable (kv : term * term) : Prop :=
  enif_get_atom (fst kv) Fits.FLEN_KEYWORD = None
  \/ (enif_is_number (snd kv) = false
      /\ fst (enif_get_string (snd kv) Fits.FLEN_VALUE) <= 0).

Definition structural (kv : term * term) : bool :=
  match fst kv with
  | TAtom name => existsb (String.eqb name) skip_keys
  | _ => false
  end.

(** No update of a keyword that the name check of the writers rejects. *)
Definition spares_structure (e : event) : bool :=
  match updated_key e with
  | Some keyname => negb (is_skip_key keyname)
  | None => true
  end.

(** The name check of a turn rejects the key of this entry. *)
Definition skipped_by_name (kv : term * term) : bool :=
  match enif_get_atom (fst kv) Fits.FLEN_KEYWORD with
  | Some key_buf => is_skip_key (C.c_str key_buf)
  | None => false
  end.


End Observations.

(** ** Instances for closed examples *)

(** A platform for the examples: a [double] is its 64-bit pattern; no
    example converts text to a [double]. *)
Definition bits_platform : Platform :=
  {| double := Z; sscanf_lf := fun _ => 0 |}.

(** Every call succeeds and changes nothing: a status stays as it came in. *)
Definition quiet {P : Platform} {X : Type} (c : libcall X) : X :=
  match c with
  | fits_open_file _ _ status => (O, status)
  | fits_create_file _ status => (O, status)
  | fits_close_file _ status => status
  | fits_get_img_param _ _ naxes status => (0, 0, naxes, status)
  | fits_read_pix _ _ _ _ status => (EmptyString, status)
  | fits_create_img _ _ _ _ status => status
  | fits_write_pix _ _ _ _ _ status => status
  | fits_get_hdrpos _ status => (0, 0, status)
  | fits_read_record _ _ status => (EmptyString, status)
  | fits_get_keyname _ status => (EmptyString, 0, status)
  | fits_parse_value _ status => (EmptyString, EmptyString, status)
  | fits_movabs_hdu _ _ status => status
  | fits_update_key _ _ _ _ status => status
  | fits_get_errstatus _ => EmptyString
  | fopen_r _ => true
  | fclose => tt
  | remove _ => tt
  | malloc _ => true
  | enif_alloc_binary _ => true
  | fprintf_stderr _ _ => tt
  | debug_float_data _ _ _ => tt
  end.

(** As [quiet], but an update of keyword [bad] answers 207 (BAD_KEYCHAR). *)
Definition refusing {P : Platform} (bad : string) : handler unit :=
  fun X (c : libcall X) (w : unit) =>
  (match c in libcall X return X -> X with
   | fits_update_key _ _ keyname _ status =>
       fun x => if String.eqb keyname bad then 207 else x
   | _ => fun x => x
   end (quiet c), w).

#[export] Instance example_params {P : Platform} : RefParams :=
  {| requantize := fun _ s => s;
     header_store := unit;
     header_call := fun X c hs => (quiet c, hs) |}.

Definition empty_world {P : Platform} : Ref.world :=
  Ref.World ∅ ∅ O [] tt.

(** A disk with one file on it. *)
Definition world_with {P : Platform} (name : string) (img : Ref.image) : Ref.world :=
  Ref.World {[ name := Some img ]} ∅ O [] tt.

(** Five header entries: a string, two integers, a double, a string. *)
Definition five_entries : list (@term bits_platform * @term bits_platform) :=
  [ (TAtom "OBJECT", enif_make_string "M31");
    (TAtom "EXPTIME", TInt 120);
    (TAtom "GAIN", TFloat (P := bits_platform) 4609434218613702656);
    (TAtom "FILTER", enif_make_string "R");
    (TAtom "NCOMBINE", TInt 3) ].

(** ** The table of NIFs and more to see in a trace *)

Section Table.
Context {P : Platform}.

(** [nif_funcs]: name, arity and function. *)
Definition nif_funcs : list (string * nat * (list term -> prog nif_return)) :=
  [ ("hello", 0%nat, fun _ => Ret hello);
    ("open_fits", 1%nat, open_fits);
    ("read_image", 1%nat, read_image);
    ("read_header", 1%nat, read_header);
    ("write_image", 4%nat, write_image);
    ("write_image", 5%nat, write_image);
    ("write_header_cards", 2%nat, write_header_cards);
    ("write_fits_file", 4%nat, write_fits_file);
    ("write_fits_file", 5%nat, write_fits_file);
    ("write_fits_file", 6%nat, write_fits_file) ].

(** The handle a successful [fits_open_file] or [fits_create_file] gave. *)
Definition opened (e : event) : option fptr :=
  match e with
  | Ev c x =>
      match c in libcall X return X -> option fptr with
      | fits_open_file _ _ _ => fun '(f, st) => if st =? 0 then Some f else None
      | fits_create_file _ _ => fun '(f, st) => if st =? 0 then Some f else None
      | _ => fun _ => None
      end x
  end.

Definition closed (e : event) : option fptr :=
  match e with
  | Ev c _ =>
      match c with
      | fits_close_file f _ => Some f
      | _ => None
      end
  end.

(** The status a CFITSIO call answered. *)
Definition status_of (e : event) : option Z :=
  match e with
  | Ev c x =>
      match c in libcall X return X -> option Z with
      | fits_open_file _ _ _ => fun '(_, st) => Some st
      | fits_create_file _ _ => fun '(_, st) => Some st
      | fits_close_file _ _ => fun st => Some st
      | fits_get_img_param _ _ _ _ => fun '(_, _, _, st) => Some st
      | fits_read_pix _ _ _ _ _ => fun '(_, st) => Some st
      | fits_create_img _ _ _ _ _ => fun st => Some st
      | fits_write_pix _ _ _ _ _ _ => fun st => Some st
      | fits_get_hdrpos _ _ => fun '(_, _, st) => Some st
      | fits_read_record _ _ _ => fun '(_, st) => Some st
      | fits_get_keyname _ _ => fun '(_, _, st) => Some st
      | fits_parse_value _ _ => fun '(_, _, st) => Some st
      | fits_movabs_hdu _ _ _ => fun st => Some st
      | fits_update_key _ _ _ _ _ => fun st => Some st
      | _ => fun _ => None
      end x
  end.

(** The file name a call hands to the library or to the C library. *)
Definition named_file (e : event) : option string :=
  match e with
  | Ev c _ =>
      match c with
      | fits_open_file filename _ _ => Some filename
      | fits_create_file filename _ => Some filename
      | fopen_r filename => Some filename
      | remove filename => Some filename
      | _ => None
      end
  end.

(** Type tag, first pixel and element count of a pixel transfer. *)
Definition transfer (e : event) : option (Z * list Z * Z) :=
  match e with
  | Ev c _ =>
      match c with
      | fits_read_pix _ datatype fpixel nelem _ => Some (datatype, fpixel, nelem)
      | fits_write_pix _ datatype fpixel nelem _ _ => Some (datatype, fpixel, nelem)
      | _ => None
      end
  end.

(** The stage of a write a call belongs to: removing the old file,
    creating the file, creating the image, writing the pixels, updating a
    header key, closing. *)
Definition stage (e : event) : option nat :=
  match e with
  | Ev c _ =>
      match c with
      | remove _ => Some 1%nat
      | fits_create_file _ _ => Some 2%nat
      | fits_create_img _ _ _ _ _ => Some 3%nat
      | fits_write_pix _ _ _ _ _ _ => Some 4%nat
      | fits_update_key _ _ _ _ _ => Some 5%nat
      | fits_close_file _ _ => Some 6%nat
      | _ => None
      end
  end.

(** After stage [from]: each stage but the header updates at most once,
    and none after a later one. *)
Fixpoint stages_in_order (from : nat) (l : list nat) : bool :=
  match l with
  | [] => true
  | s :: rest =>
      ((from <? s)%nat || ((s =? 5)%nat && (from =? 5)%nat)) && stages_in_order s rest
  end.

(** A call of the header stage: an update, the text of a status, a line. *)
Definition header_event (e : event) : bool :=
  match e with
  | Ev c _ =>
      match c with
      | fits_update_key _ _ _ _ _ | fits_get_errstatus _ | fprintf_stderr _ _ => true
      | _ => false
      end
  end.

(** A call of the loop of [read_header] on one record. *)
Definition record_event (e : event) : bool :=
  match e with
  | Ev c _ =>
      match c with
      | fits_read_record _ _ _ | fits_get_keyname _ _ | fits_parse_value _ _ => true
      | _ => false
      end
  end.

(** The number of the record a call reads. *)
Definition record_read (e : event) : option Z :=
  match e with
  | Ev c _ =>
      match c with
      | fits_read_record _ keynum _ => Some keynum
      | _ => None
      end
  end.

(** The record count [fits_get_hdrpos] answered on success. *)
Definition record_count (e : event) : option Z :=
  match e with
  | Ev c x =>
      match c in libcall X return X -> option Z with
      | fits_get_hdrpos _ _ => fun '(nkeys, _, st) => if st =? 0 then Some nkeys else None
      | _ => fun _ => None
      end x
  end.

(** What [malloc] answered. *)
Definition allocation (e : event) : option bool :=
  match e with
  | Ev c x =>
      match c in libcall X return X -> option bool with
      | malloc _ => fun ok => Some ok
      | _ => fun _ => None
      end x
  end.

(** The result is [ok] or a tuple that starts with [ok]. *)
Definition is_ok (r : nif_return) : bool :=
  match r with
  | Return (TAtom name) => String.eqb name "ok"
  | Return (TTuple (TAtom name :: _)) => String.eqb name "ok"
  | _ => false
  end.

(** A name handed on fits the [filename] buffer with its terminator. *)
Definition name_fits (e : event) : bool :=
  match named_file e with
  | Some name => Z.of_nat (String.length name) <? FILENAME_SIZE
  | None => true
  end.

(** A pixel transfer is of [TFLOAT] samples from the first pixel on. *)
Definition float_transfer (e : event) : bool :=
  match transfer e with
  | Some (datatype, [a; b], _) => (datatype =? Fits.TFLOAT) && (a =? 1) && (b =? 1)
  | Some _ => false
  | None => true
  end.

(** What every run of a NIF keeps to: it closes the handle it was given,
    once, and no other; an error with a number carries the status the
    library answered last; [badarg] comes before any access to a file; an
    error with an atom comes before any call of CFITSIO and before any file
    is removed; the names handed on fit the buffer; pixels move as [TFLOAT]
    from the first one on; and, when [strict], a result that is [ok] comes
    after the library answered its last call with status 0. *)
Definition disciplined (strict : bool) {W : Type} (o : outcome W nif_return) : Prop :=
  omap opened (trace o) = omap closed (trace o)
  /\ (forall st, result o = error_status st -> last (omap status_of (trace o)) = Some st)
  /\ (result o = Badarg -> forallb is_stderr (trace o) = true)
  /\ (forall reason, result o = error_atom reason ->
        omap status_of (trace o) = [] /\ omap removes (trace o) = [])
  /\ forallb name_fits (trace o) = true
  /\ forallb float_transfer (trace o) = true
  /\ (is_ok (result o) = true -> strict = true ->
        last (omap status_of (trace o)) = Some 0).

(** The keys of a map built by [read_header]. *)
Definition key_name (kv : term * term) : option string :=
  match fst kv with
  | TAtom name => Some name
  | _ => None
  end.

(** A value [read_header] can give: an integer, a double, or a list of
    character codes. *)
Definition decoded (v : term) : Prop :=
  match v with
  | TInt _ | TFloat _ => True
  | TList l => Forall (fun t => exists c : ascii, t = TInt (C.code c)) l
  | _ => False
  end.

(** An entry [read_header] can give. *)
Definition header_entry (kv : term * term) : Prop :=
  (exists name, fst kv = TAtom name
                /\ name <> "COMMENT" /\ name <> "HISTORY" /\ name <> EmptyString)
  /\ decoded (snd kv).

Definition well_formed_header (m : list (term * term)) : Prop :=
  Forall header_entry m /\ NoDup (omap key_name m).

(** The record numbers [i], [i + 1], ... that [count] turns of the loop of
    [read_header] ask for. *)
Fixpoint record_numbers (i : Z) (count : nat) : list Z :=
  match count with
  | O => []
  | S count' => i :: record_numbers (i + 1) count'
  end.

End Table.

(** As [quiet], but closing a file answers 110 whatever the status was. *)
Definition failing_close {P : Platform} : handler unit :=
  fun X (c : libcall X) (w : unit) =>
  (match c in libcall X return X -> X with
   | fits_close_file _ _ => fun _ => 110
   | _ => fun x => x
   end (quiet c), w).

(** As [quiet], but every image is one [FLOAT_IMG] pixel and [malloc]
    answers NULL. *)
Definition failing_malloc {P : Platform} : handler unit :=
  fun X (c : libcall X) (w : unit) =>
  (match c in libcall X return X -> X with
   | fits_get_img_param _ _ _ status => fun _ => (Fits.FLOAT_IMG, 2, [1; 1], status)
   | malloc _ => fun _ => false
   | _ => fun x => x
   end (quiet c), w).

(** ** Decimal text *)

(** The decimal digits of [n] in front of [acc]; [fuel] digits at most. *)
Fixpoint decimal_digits (fuel : nat) (n : Z) (acc : string) : string :=
  match fuel with
  | O => acc
  | S fuel' =>
      let acc' := String (ascii_of_N (Z.to_N (48 + n mod 10))) acc in
      if n <? 10 then acc' else decimal_digits fuel' (n / 10) acc'
  end.

(** An integer of up to 20 digits as [%ld] prints it. *)
Definition decimal_text (z : Z) : string :=
  if z <? 0 then String "-" (decimal_digits 20 (- z) EmptyString)
  else decimal_digits 20 z EmptyString.

(** ** [write_header_to_fits] of [write_fits.c]

    The helper is called by no NIF; it is written against the one library
    function it calls, [fits_write_record], as a function of the card, the
    status on entry and the state of the library. *)

Section LiteralCards.
Context {P : Platform} {W : Type}.
Variable fits_write_record : fptr -> string -> Z -> W -> Z * W.

(** [sizeof(card)] *)
Definition CARD_SIZE : nat := 81.

(** The [for] loop over the cells of the list: the return value, the
    status and the state at the end. *)
Fixpoint write_cards (f : fptr) (cells : list term) (status : Z) (w : W)
  : Z * Z * W :=
  match cells with
  | [] => (1, status, w)
  | head :: tail =>
      let '(n, card) := enif_get_string head CARD_SIZE in
      if nonzero n then
        let '(status, w) := fits_write_record f (C.c_str card) status w in
        if nonzero status then (0, status, w)
        else write_cards f tail status w
      else (0, status, w)
  end.

(** [write_header_to_fits]: [enif_get_list_length] fails on a term that is
    no list. *)
Definition write_header_to_fits (f : fptr) (headers : term) (status : Z) (w : W)
  : Z * Z * W :=
  match headers with
  | TList cells => write_cards f cells status w
  | _ => (0, status, w)
  end.

End LiteralCards.

(** ** Calls that change a file *)

Section Changes.
Context {P : Platform}.

(** A call that can change a file or the set of files: opening for
    writing, creating, writing pixels, updating a key, removing. *)
Definition mutates (e : event) : bool :=
  match e with
  | Ev c _ =>
      match c with
      | fits_open_file _ iomode _ => negb (iomode =? Fits.READONLY)
      | fits_create_file _ _ | fits_create_img _ _ _ _ _
      | fits_write_pix _ _ _ _ _ _ | fits_update_key _ _ _ _ _ | remove _ => true
      | _ => false
      end
  end.

(** A call that makes or removes a file, or moves pixels. *)
Definition touches_data (e : event) : bool :=
  match e with
  | Ev c _ =>
      match c with
      | fits_create_file _ _ | fits_create_img _ _ _ _ _
      | fits_write_pix _ _ _ _ _ _ | fits_read_pix _ _ _ _ _ | remove _ => true
      | _ => false
      end
  end.

End Changes.

(** The character codes of a text, as [enif_make_string] lists them. *)
Definition codes {P : Platform} (s : string) : list term :=
  map (fun c => TInt (C.code c)) (list_ascii_of_string s).

(** As [quiet], but the header has two records, each the card of
    [EXPTIME] with the value 120. *)
Definition two_records {P : Platform} : handler unit :=
  fun X (c : libcall X) (w : unit) =>
  (match c in libcall X return X -> X with
   | fits_get_hdrpos _ status => fun _ => (2, 0, status)
   | fits_read_record _ _ status => fun _ => ("EXPTIME =                  120", status)
   | fits_get_keyname _ status => fun _ => ("EXPTIME", 7, status)
   | fits_parse_value _ status => fun _ => ("120", EmptyString, status)
   | _ => fun x => x
   end (quiet c), w).

(** ** More of the library: plain names and the case of keywords *)

(** CFITSIO reads more than a name in a file name: a leading [!], brackets,
    parentheses, a scheme, [-] and the names of the standard streams all
    mean something.  A plain name holds letters, digits, [.], [_] and [/]
    only and is none of the stream names; only for such a name is the file
    that the library works on the one that the name spells. *)
Definition plain_char (c : ascii) : bool :=
  let n := C.code c in
  ((48 <=? n) && (n <=? 57)) || ((65 <=? n) && (n <=? 90))
  || ((97 <=? n) && (n <=? 122)) || (n =? 46) || (n =? 95) || (n =? 47).

Definition plain_name (name : string) : bool :=
  forallb plain_char (list_ascii_of_string name)
  && negb (String.eqb name EmptyString)
  && negb (String.eqb name "stdin") && negb (String.eqb name "stdout").

Module Folding.
Section Folding.
Context {P : Platform} {RP : RefParams}.
Import Ref.

(** [toupper] in the C locale. *)
Definition toupper (c : ascii) : ascii :=
  let n := C.code c in
  if (97 <=? n) && (n <=? 122) then ascii_of_N (Z.to_N (n - 32)) else c.

Fixpoint upcase (s : string) : string :=
  match s with
  | EmptyString => EmptyString
  | String c r => String (toupper c) (upcase r)
  end.

(** The card of the primary array that keyword [keyname] names, whatever
    the case of its letters, rewritten with an integer: [BITPIX], [NAXIS1]
    and [NAXIS2] are the cards the shape of the image is read from. *)
Definition restructure (keyname : string) (value : keyval) (img : image) : option image :=
  match value with
  | KLong z =>
      if String.eqb (upcase keyname) "BITPIX"
      then Some (Image z (img_naxes img) (img_pixels img))
      else if String.eqb (upcase keyname) "NAXIS1"
      then Some (Image (img_bitpix img) (<[0%nat := z]> (img_naxes img)) (img_pixels img))
      else if String.eqb (upcase keyname) "NAXIS2"
      then Some (Image (img_bitpix img) (<[1%nat := z]> (img_naxes img)) (img_pixels img))
      else None
  | _ => None
  end.

(** The reference library with the header of the primary array in view:
    [fits_update_key] folds the keyword to upper case, as CFITSIO does
    before it looks for the card or writes it, and an integer written to
    one of the cards above changes what the file says of its shape.  Every
    other call is [ref_call]'s. *)
Definition folding_call : handler world :=
  fun X (c : libcall X) =>
  match c in libcall X return world -> X * world with
  | fits_update_key f datatype keyname value status => fun w =>
      if 0 <? status then (status, w) else
      match image_of w f with
      | inr (name, iomode, img) =>
          if iomode =? Fits.READONLY then (READONLY_FILE, w) else
          match restructure keyname value img with
          | Some img' => (0, with_disk w (<[name := Some img']> (disk w)))
          | None => ref_call _ (fits_update_key f datatype keyname value status) w
          end
      | inl _ => ref_call _ (fits_update_key f datatype keyname value status) w
      end
  | c' => ref_call _ c'
  end.

End Folding.
End Folding.

Section MoreObservations.
Context {P : Platform}.



(** The type tag a value goes out under, and the term it came from. *)
Definition tag_of (value : keyval) : Z :=
  match value with
  | KLong _ => Fits.TLONG
  | KDouble _ => Fits.TDOUBLE
  | KString _ => Fits.TSTRING
  end.

Definition term_of (value : keyval) : term :=
  match value with
  | KLong z => enif_make_long z
  | KDouble d => enif_make_double d
  | KString s => enif_make_string s
  end.


End MoreObservations.


(** As [quiet], but an update of keyword [key] answers [answer key]. *)
Definition update_answers {P : Platform} (answer : string -> Z) : handler unit :=
  fun X (c : libcall X) (w : unit) =>
  (match c in libcall X return X -> X with
   | fits_update_key _ _ keyname _ _ => fun _ => answer keyname
   | _ => fun x => x
   end (quiet c), w).



(** * Properties *)

#[global] Arguments C.in_long : simpl never.
#[global] Arguments C.in_int : simpl never.
#[global] Arguments C.c_str : simpl never.
#[global] Arguments C.wrap_long : simpl never.
#[global] Arguments expected_bytes : simpl never.
#[global] Arguments pixel_bytes : simpl never.
#[global] Arguments binary_size : simpl never.
#[global] Arguments string_take : simpl never.
#[global] Arguments nonzero : simpl never.
#[global] Arguments is_skip_key : simpl never.
#[global] Arguments enif_get_string : simpl never.
#[global] Arguments enif_get_atom : simpl never.
#[global] Arguments Ref.ref_call : simpl never.

(** ** C strings *)

Lemma c_str_nul_free buf : nul_free (C.c_str buf).
Proof.
  induction buf as [|c r IH]; unfold C.c_str; fold C.c_str; [constructor|].
  destruct (Ascii.eqb_spec c C.NUL); constructor; assumption.
Qed.

Lemma c_str_id s : nul_free s -> C.c_str s = s.
Proof.
  induction 1 as [|c s Hc _ IH]; unfold C.c_str; fold C.c_str; [reflexivity|].
  destruct (Ascii.eqb_spec c C.NUL); congruence.
Qed.

Lemma nul_free_substring s : nul_free s -> forall n m, nul_free (String.substring n m s).
Proof.
  induction 1 as [|c s Hc Hs IH]; intros n m.
  - destruct n, m; constructor.
  - destruct n; simpl.
    + destruct m; constructor; auto.
    + apply IH.
Qed.

Lemma skip_space_nul_free s : nul_free s -> nul_free (C.skip_space s).
Proof.
  induction 1 as [|c s Hc Hs IH]; simpl; [constructor|].
  destruct (C.isspace c); [assumption | constructor; assumption].
Qed.

(** Putting the terminator on the last character leaves the text before it. *)
Lemma poke_last t : forall n,
  nul_free t -> String.length t = S n ->
  C.c_str (C.poke t n C.NUL) = String.substring 0 n t.
Proof.
  induction t as [|a t IH]; intros n Ht Hlen; [discriminate|].
  inversion Ht as [|? ? Ha Ht']; subst.
  destruct n as [|n']; unfold C.c_str; simpl; fold C.c_str.
  - reflexivity.
  - destruct (Ascii.eqb_spec a C.NUL); [contradiction|].
    f_equal. apply IH; [assumption|]. simpl in Hlen. lia.
Qed.

(** Taking the closing quote off in place and reading from the second
    character is taking the text between the quotes. *)
Lemma strip_in_place v :
  nul_free v -> (2 <= String.length v)%nat ->
  C.c_str (C.advance (C.poke v (String.length v - 1) C.NUL) 1)
  = String.substring 1 (String.length v - 2) v.
Proof.
  intros Hv Hlen. destruct v as [|c s]; [simpl in Hlen; lia|].
  inversion Hv as [|? ? Hc Hs]; subst.
  destruct (String.length s) as [|n] eqn:E; [simpl in Hlen; lia|].
  simpl String.length. rewrite E.
  replace (S (S n) - 1)%nat with (S n) by lia.
  replace (S (S n) - 2)%nat with n by lia.
  simpl. apply poke_last; assumption.
Qed.

Lemma code_inj a b : C.code a = C.code b -> a = b.
Proof.
  unfold C.code. intros H. apply N2Z.inj in H.
  rewrite <- (ascii_N_embedding a), <- (ascii_N_embedding b). congruence.
Qed.

Lemma substring_all s : String.substring 0 (String.length s) s = s.
Proof. induction s as [|c r IH]; simpl; [reflexivity | rewrite IH; reflexivity]. Qed.

Lemma append_empty s : String.append s EmptyString = s.
Proof.
  induction s as [|c r IH]; [reflexivity|].
  change (String c (String.append r EmptyString) = String c r). rewrite IH. reflexivity.
Qed.

(** ** The classification of header values *)

Section DecodeFacts.
Context {P : Platform}.

Lemma strncmp_quote v : (C.strncmp v "'" 1 =? 0) = begins_with_quote v.
Proof.
  destruct v as [|c r]; [reflexivity|].
  unfold begins_with_quote, quote. simpl.
  destruct (Ascii.eqb_spec c "'"%char) as [->|Hne]; [reflexivity|].
  apply Z.eqb_neq. intros H. apply Hne, code_inj. lia.
Qed.

Lemma char_at_last v :
  v <> EmptyString ->
  C.char_at v (String.length v - 1) = List.last (list_ascii_of_string v) C.NUL.
Proof.
  induction v as [|c r IH]; intros Hne; [congruence|].
  destruct r as [|b r'].
  - reflexivity.
  - specialize (IH ltac:(discriminate)).
    simpl String.length in *. unfold C.char_at in *.
    replace (S (S (String.length r')) - 1)%nat with (S (String.length r')) by lia.
    replace (S (String.length r') - 1)%nat with (String.length r') in IH by lia.
    simpl String.get. simpl String.get in IH. rewrite IH. reflexivity.
Qed.

Lemma strchr_point v :
  match C.strchr v point with Some _ => true | None => false end = contains_point v.
Proof.
  unfold contains_point. induction v as [|c r IH]; [reflexivity|].
  simpl. destruct (Ascii.eqb c point); [reflexivity | exact IH].
Qed.

Lemma scan_all_digits s : forall acc,
  all_digits s = true ->
  C.scan_digits s acc
  = (fold_left (fun a c => 10 * a + C.digit_value c) (list_ascii_of_string s) acc,
     EmptyString).
Proof.
  unfold all_digits. induction s as [|c r IH]; intros acc H; [reflexivity|].
  simpl in *. apply andb_true_iff in H as [Hc Hr]. rewrite Hc. apply IH, Hr.
Qed.

Lemma scan_stops s : forall acc,
  nul_free s -> all_digits s = false ->
  exists c r, snd (C.scan_digits s acc) = String c r /\ c <> C.NUL.
Proof.
  unfold all_digits. induction s as [|c r IH]; intros acc Hs H; [discriminate|].
  inversion Hs as [|? ? Hc Hr]; subst. simpl in *.
  destruct (C.isdigit c); simpl in H.
  - apply IH; assumption.
  - exists c, r. split; [reflexivity | assumption].
Qed.

(** [strtol] with the test [*endptr == 0] is the integer parse that leaves
    nothing over. *)
Lemma strtol_whole v :
  nul_free v ->
  (let '(ival, endptr) := C.strtol v in
   if Ascii.eqb (C.char_at endptr 0) C.NUL then Some ival else None)
  = integer_parse v.
Proof.
  intros Hv. destruct v as [|c0 v0]; [reflexivity|].
  set (v := String c0 v0) in *.
  assert (Hv0 : Ascii.eqb (C.char_at v 0) C.NUL = false).
  { inversion Hv; subst. unfold C.char_at; simpl. apply Ascii.eqb_neq. assumption. }
  unfold C.strtol, integer_parse. fold v.
  pose proof (skip_space_nul_free v Hv) as Hs.
  assert (G : forall (neg : bool) (body : string), nul_free body ->
    (let '(ival, endptr) :=
       match body with
       | EmptyString => (0, v)
       | String c _ =>
           if C.isdigit c
           then let '(n, rest) := C.scan_digits body 0 in
                (C.clamp_long (if neg then - n else n), rest)
           else (0, v)
       end in
     if Ascii.eqb (C.char_at endptr 0) C.NUL then Some ival else None)
    = match body with
      | EmptyString => None
      | String _ _ =>
          if all_digits body
          then Some (C.clamp_long (if neg then - decimal_value body
                                   else decimal_value body))
          else None
      end).
  { intros neg body Hb. destruct body as [|c r]; [rewrite Hv0; reflexivity|].
    destruct (C.isdigit c) eqn:Hc.
    - destruct (all_digits (String c r)) eqn:Hall.
      + rewrite (scan_all_digits _ 0 Hall). reflexivity.
      + destruct (scan_stops _ 0 Hb Hall) as (c' & r' & Hrest & Hc').
        destruct (C.scan_digits (String c r) 0) as [n rest]. simpl in Hrest. subst rest.
        unfold C.char_at. simpl. apply Ascii.eqb_neq in Hc'. rewrite Hc'. reflexivity.
    - rewrite Hv0. unfold all_digits. simpl. rewrite Hc. reflexivity. }
  destruct (C.skip_space v) as [|c s] eqn:Es.
  - apply (G false EmptyString). constructor.
  - inversion Hs as [|? ? Hc Hs']; subst.
    destruct (Ascii.eqb_spec c "-"%char) as [->|Hm].
    + apply (G true s Hs').
    + destruct (Ascii.eqb_spec c "+"%char) as [->|Hp].
      * apply (G false s Hs').
      * assert (E : (match c with
                     | "-"%char => (true, s) | "+"%char => (false, s)
                     | _ => (false, String c s) end) = (false, String c s)).
        { destruct c as [[] [] [] [] [] [] [] []]; try reflexivity; congruence. }
        rewrite E. apply (G false (String c s)). constructor; assumption.
Qed.

Lemma decode_value_refines buf : decode_value buf = decode_value_spec (C.c_str buf).
Proof.
  unfold decode_value, decode_value_spec.
  pose proof (c_str_nul_free buf) as Hv.
  set (v := C.c_str buf) in *.
  rewrite strncmp_quote.
  destruct (begins_with_quote v) eqn:Hq.
  - unfold C.strlen. rewrite (c_str_id v Hv).
    assert (H0 : Ascii.eqb (C.char_at v 0) quote = true).
    { destruct v; [discriminate|]. exact Hq. }
    rewrite H0, andb_true_r.
    destruct (2 <=? String.length v)%nat eqn:Hlen; cbn [andb]; [|reflexivity].
    apply Nat.leb_le in Hlen.
    rewrite char_at_last by (destruct v; [simpl in Hlen; lia | discriminate]).
    fold (ends_with_quote v).
    destruct (ends_with_quote v); [|reflexivity].
    unfold enif_make_string, strip_quotes.
    rewrite strip_in_place by assumption.
    rewrite c_str_id; [reflexivity|]. apply nul_free_substring, Hv.
  - rewrite <- strchr_point.
    destruct (C.strchr v point); [reflexivity|].
    rewrite <- (strtol_whole v Hv).
    destruct (C.strtol v) as [ival endptr].
    destruct (Ascii.eqb (C.char_at endptr 0) C.NUL); reflexivity.
Qed.

(** C3: the value field of a card, as the C string in the buffer, is
    classified in this order: it begins with a quote, and is the string
    between the quotes when it has at least two characters and ends with a
    quote, the raw text otherwise; else it holds a decimal point, and is the
    double [sscanf] reads; else it is the integer an integer parse reads when
    nothing is left over, and the raw text as a string otherwise.  The quoted
    ['120'] is the string "120", the bare [120] the integer 120. *)
Theorem decode_value_classification :
  (forall buf, decode_value buf = decode_value_spec (C.c_str buf))
  /\ decode_value "'120'" = enif_make_string "120"
  /\ decode_value "120" = enif_make_long 120.
Proof.
  split; [exact decode_value_refines|]. split; reflexivity.
Qed.

End DecodeFacts.

(** ** Runs against any implementation of the calls *)

(** One call answered by the handler [h]. *)
Ltac answer h :=
  match goal with
  | |- context [h ?X ?c ?w] =>
      let x := fresh "x" in
      let w' := fresh "w" in
      destruct (h X c w) as [x w'] eqn:?;
      repeat match goal with y : (_ * _)%type |- _ => destruct y end
  end.

(** One test of the program. *)
Ltac branch :=
  match goal with
  | |- context [if nonzero ?s then _ else _] => destruct (nonzero s) eqn:?
  | |- context [if negb ?b then _ else _] => destruct b eqn:?
  | |- context [if ?b then _ else _] => destruct b eqn:?
  end.

Ltac run h := repeat (simpl; first [answer h | branch]); simpl.

Ltac status_zero :=
  repeat match goal with
  | H : nonzero ?s = false |- _ =>
      apply negb_false_iff, Z.eqb_eq in H; subst s
  end.

Section Runs.
Context {P : Platform}.

Lemma exec_bind {W A B} (h : handler W) (m : prog A) (k : A -> prog B) (w : W) :
  exec h (bind m k) w =
  let o1 := exec h m w in
  let o2 := exec h (k (result o1)) (final o1) in
  Outcome (result o2) (final o2) (trace o1 ++ trace o2).
Proof.
  revert w. induction m as [a | X c k' IH]; intros w; simpl.
  - destruct (exec h (k a) w); reflexivity.
  - destruct (h X c w) as [x w']. rewrite IH. reflexivity.
Qed.

Lemma exec_bind_ext {W A B} (h : handler W) (m : prog A) (k k' : A -> prog B) (w : W) :
  (forall a w', exec h (k a) w' = exec h (k' a) w') ->
  exec h (bind m k) w = exec h (bind m k') w.
Proof. intros E. rewrite !exec_bind. simpl. rewrite E. reflexivity. Qed.

Lemma trace_bind {W A B} (h : handler W) (m : prog A) (k : A -> prog B) (w : W) :
  trace (exec h (bind m k) w)
  = (trace (exec h m w)
     ++ trace (exec h (k (result (exec h m w))) (final (exec h m w))))%list.
Proof. rewrite exec_bind. reflexivity. Qed.


Lemma nonzero_eqb st b : nonzero st = b -> (st =? 0) = negb b.
Proof. unfold nonzero. intros <-. rewrite negb_involutive. reflexivity. Qed.

Lemma cards_loop_cons f st kv rest :
  cards_loop f st (kv :: rest)
  = bind (cards_turn f st kv)
      (fun stop : bool => if stop then Ret tt else cards_loop f st rest).
Proof. reflexivity. Qed.

Lemma file_loop_cons f kv rest :
  file_loop f (kv :: rest) = bind (file_turn f kv) (fun _ => file_loop f rest).
Proof. reflexivity. Qed.

(** *** The size check *)

Lemma write_image_mismatch name data width height :
  binary_size name < FILENAME_SIZE ->
  C.in_long width = true -> C.in_long height = true ->
  expected_bytes width height <> binary_size data ->
  write_image [TBinary name; TBinary data; TInt width; TInt height]
  = Ret (error_atom "dimensions_mismatch").
Proof.
  intros Hn Hw Hh Hne. unfold write_image, arg_binary, arg_long, enif_get_long.
  simpl. destruct (Z.leb_spec FILENAME_SIZE (binary_size name)); [lia|].
  rewrite Hw, Hh.
  destruct (Z.eqb_spec (expected_bytes width height) (binary_size data)); [contradiction|].
  reflexivity.
Qed.

Lemma write_fits_file_mismatch name data width height W (h : handler W) (w : W) :
  binary_size name < FILENAME_SIZE ->
  C.in_long width = true -> C.in_long height = true ->
  expected_bytes width height <> binary_size data ->
  let o := exec h (write_fits_file [TBinary name; TBinary data; TInt width; TInt height]) w in
  result o = error_atom "dimensions_mismatch" /\ forallb is_stderr (trace o) = true.
Proof.
  intros Hn Hw Hh Hne.
  unfold write_fits_file, header_argument, arg_binary, arg_long, enif_get_long.
  simpl. destruct (Z.leb_spec FILENAME_SIZE (binary_size name)); [lia|].
  rewrite Hw, Hh.
  destruct (Z.eqb_spec (expected_bytes width height) (binary_size data)); [contradiction|].
  run h. split; reflexivity.
Qed.

(** Without wrap-around the check is the one on the true product: both
    writers answer [dimensions_mismatch], [write_image] without a call and
    [write_fits_file] after output to [stderr] only. *)
Lemma size_check_without_wrap name data width height W (h : handler W) (w : W) :
  binary_size name < FILENAME_SIZE ->
  0 <= width * height -> width * height * 4 < C.SIZE_MODULUS ->
  C.in_long width = true -> C.in_long height = true ->
  binary_size data <> width * height * 4 ->
  let argv := [TBinary name; TBinary data; TInt width; TInt height] in
  write_image argv = Ret (error_atom "dimensions_mismatch")
  /\ result (exec h (write_fits_file argv) w) = error_atom "dimensions_mismatch"
  /\ forallb is_stderr (trace (exec h (write_fits_file argv) w)) = true.
Proof.
  intros Hn H0 H1 Hw Hh Hne.
  assert (E : expected_bytes width height = width * height * 4).
  { unfold expected_bytes, C.wrap_long, C.to_ulong, C.sizeof_float, C.SIZE_MODULUS in *.
    replace ((width * height + 2 ^ 63) mod 2 ^ 64 - 2 ^ 63) with (width * height)
      by (rewrite Z.mod_small; lia).
    rewrite (Z.mod_small (width * height)) by lia. apply Z.mod_small. lia. }
  split.
  - apply write_image_mismatch; try assumption. rewrite E. congruence.
  - apply write_fits_file_mismatch; try assumption. rewrite E. congruence.
Qed.

(** C2 fails on the code where the product wraps.  A width of 2^62 with
    height 1 and an empty buffer: 0 bytes are not 2^62 * 1 * 4 bytes, but the product wraps to 0 in
    [size_t], the check passes, and whatever the library answers
    [write_image] asks it to create the file and does not answer
    [dimensions_mismatch]; [write_fits_file] does the same unless [malloc]
    fails. *)
Theorem dimension_check_wraps W (h : handler W) (w : W) :
  let argv := [TBinary "big.fits"; TBinary ""; TInt (2 ^ 62); TInt 1] in
  let o := exec h (write_image argv) w in
  let o' := exec h (write_fits_file argv) w in
  binary_size "" <> 2 ^ 62 * 1 * 4
  /\ omap creates (trace o) = ["big.fits"]
  /\ result o <> error_atom "dimensions_mismatch"
  /\ (omap creates (trace o') = ["big.fits"]
      \/ result o' = error_atom "memory_allocation_failure")
  /\ result o' <> error_atom "dimensions_mismatch".
Proof.
  split; [discriminate|].
  unfold write_image, write_fits_file, header_argument, arg_binary, arg_long, enif_get_long.
  change (C.in_long (2 ^ 62)) with true. change (C.in_long 1) with true.
  change (expected_bytes (2 ^ 62) 1 =? binary_size "") with true.
  change (FILENAME_SIZE <=? binary_size "big.fits") with false.
  change (C.c_str "big.fits") with "big.fits".
  repeat split; run h; try discriminate; try reflexivity; auto.
Qed.

(** *** Axis counts *)

(** C9: whatever the library does, when it answers the parameter query of
    [read_image] with an axis count other than 2, the result is an [error]
    tuple and no pixel is read: there is no buffer, whole or partial. *)
Theorem read_image_rejects_other_axis_counts
    (argv : list term) W (h : handler W) (w : W) (naxis : Z) :
  let o := exec h (read_image argv) w in
  In (Some naxis) (map axis_count (trace o)) -> naxis <> 2 ->
  (exists st, result o = error_status st)
  /\ existsb reads_pixels (trace o) = false.
Proof.
  assert (Out : forall tr : list event, In (Some naxis) [] -> naxis <> 2 ->
            (exists st : Z, @Badarg P = error_status st)
            /\ existsb reads_pixels tr = false)
    by (intros ? []).
  unfold read_image. destruct (arg_binary argv 0) as [bin|]; [|apply (Out [])].
  destruct (FILENAME_SIZE <=? binary_size bin); [apply (Out [])|].
  simpl. answer h. simpl. clear Out.
  destruct (nonzero z) eqn:Hopen; simpl.
  { intros [Hin|[]]; discriminate. }
  answer h. simpl.
  match goal with
  | |- context [if nonzero ?s || negb (?n =? 2) then _ else _] =>
      destruct (nonzero s) eqn:Hst; [|destruct (Z.eqb_spec n 2) as [->|Hn]]
  end; simpl.
  - answer h. simpl. intros _ _. split; [eexists; reflexivity | reflexivity].
  - unfold nonzero in Hst. apply negb_false_iff in Hst. rewrite Hst.
    run h; intros Hin Hne; exfalso;
      repeat (destruct Hin as [Hin|Hin]; [inversion Hin; congruence|]); exact Hin.
  - answer h. simpl. intros _ _. split; [eexists; reflexivity | reflexivity].
Qed.

End Runs.

(** ** The header stage *)

Ltac settle_status :=
  repeat match goal with
  | H : nonzero ?s = _ |- _ => apply nonzero_eqb in H; simpl negb in H
  end;
  repeat match goal with
  | H : (?s =? 0) = _ |- _ => rewrite H
  end.


Section HeaderStage.
Context {P : Platform}.

(** *** The dispatch on the type of the value *)

Lemma cards_update_dispatch (f : fptr) (key_str : string) :
  (forall z, C.in_long z = true ->
     exists k, cards_update f key_str (TInt z)
               = Vis (fits_update_key f Fits.TLONG key_str (KLong z) 0) k)
  /\ (forall d, exists k, cards_update f key_str (TFloat d)
               = Vis (fits_update_key f Fits.TDOUBLE key_str (KDouble d) 0) k)
  /\ (forall l n text, enif_get_string (TList l) Fits.FLEN_VALUE = (n, text) -> 0 < n ->
        exists k, cards_update f key_str (TList l)
               = Vis (fits_update_key f Fits.TSTRING key_str (KString (C.c_str text)) 0) k).
Proof.
  unfold cards_update. repeat split.
  - intros z Hz. simpl. rewrite Hz. eexists. reflexivity.
  - intros d. simpl. eexists. reflexivity.
  - intros l n text E Hn. simpl. rewrite E.
    destruct (Z.ltb_spec 0 n); [|lia]. eexists. reflexivity.
Qed.

Lemma file_update_dispatch (f : fptr) (key_str : string) W (h : handler W) (w : W) :
  (forall z, C.in_long z = true ->
     map attempt (updates (trace (exec h (file_update f key_str (TInt z)) w)))
     = [(Fits.TLONG, key_str, KLong z)])
  /\ (forall d,
     map attempt (updates (trace (exec h (file_update f key_str (TFloat d)) w)))
     = [(Fits.TDOUBLE, key_str, KDouble d)])
  /\ (forall l n text, enif_get_string (TList l) Fits.FLEN_VALUE = (n, text) -> 0 < n ->
     map attempt (updates (trace (exec h (file_update f key_str (TList l)) w)))
     = [(Fits.TSTRING, key_str, KString (C.c_str text))]).
Proof.
  unfold file_update. repeat split.
  - intros z Hz. simpl. rewrite Hz. run h. reflexivity.
  - intros d. run h. reflexivity.
  - intros l n text E Hn. simpl. rewrite E.
    destruct (Z.ltb_spec 0 n); [|lia]. run h. reflexivity.
Qed.

(** [enif_get_string] reads nothing from a binary. *)
Lemma get_string_binary b len : enif_get_string (TBinary b) len = (0, EmptyString).
Proof. destruct len; reflexivity. Qed.

(** C8 fails on the code for text held in a binary.  "M31" as a binary enters the string
    branch of both writers and leaves it with no call: [enif_get_string]
    answers 0 for a binary.  Whatever the library does, the run of either
    writer on the map with the one entry OBJECT => "M31" holds no header
    update. *)
Theorem binary_text_is_not_written (f : fptr) (key_str : string) (W : Type)
    (h : handler W) (w : W) :
  cards_update f key_str (TBinary "M31") = Ret 0
  /\ file_update f key_str (TBinary "M31") = Ret 0
  /\ updates (trace (exec h (write_header_cards
                       [TBinary "m31.fits"; TMap [(TAtom "OBJECT", TBinary "M31")]]) w)) = []
  /\ updates (trace (exec h (write_fits_file
                       [TBinary "m31.fits"; TBinary "abcd"; TInt 1; TInt 1; TInt (-32);
                        TMap [(TAtom "OBJECT", TBinary "M31")]]) w)) = [].
Proof.
  split; [reflexivity|]. split; [reflexivity|]. split.
  - unfold write_header_cards, arg_binary. simpl.
    change (FILENAME_SIZE <=? binary_size "m31.fits") with false.
    run h; reflexivity.
  - unfold write_fits_file, header_argument, arg_binary, arg_long, arg_int. simpl.
    change (FILENAME_SIZE <=? binary_size "m31.fits") with false.
    change (C.in_long 1) with true. change (C.in_int (-32)) with true.
    change (expected_bytes 1 1 =? binary_size "abcd") with true.
    run h; reflexivity.
Qed.

(** *** Entries the writers pass over *)

Lemma cards_update_unusable f key_str value :
  enif_is_number value = false ->
  fst (enif_get_string value Fits.FLEN_VALUE) <= 0 ->
  cards_update f key_str value = Ret 0.
Proof.
  intros Hn Hs. unfold cards_update. rewrite Hn.
  destruct (enif_is_binary value || enif_is_list value); [|reflexivity].
  destruct (enif_get_string value Fits.FLEN_VALUE) as [n buf]. simpl in Hs.
  destruct (Z.ltb_spec 0 n); [lia | reflexivity].
Qed.

Lemma file_update_unusable f key_str value :
  enif_is_number value = false ->
  fst (enif_get_string value Fits.FLEN_VALUE) <= 0 ->
  file_update f key_str value = Ret 0.
Proof.
  intros Hn Hs. unfold file_update. rewrite Hn.
  destruct (enif_is_binary value || enif_is_list value); [|reflexivity].
  destruct (enif_get_string value Fits.FLEN_VALUE) as [n buf]. simpl in Hs.
  destruct (Z.ltb_spec 0 n); [lia | reflexivity].
Qed.

Lemma cards_turn_unusable f kv : unusable kv -> cards_turn f 0 kv = Ret false.
Proof.
  destruct kv as [key value]. unfold unusable, cards_turn. simpl fst. simpl snd.
  intros [Hk | [Hn Hs]].
  - rewrite Hk. reflexivity.
  - destruct (enif_get_atom key Fits.FLEN_KEYWORD) as [key_buf|]; [|reflexivity].
    destruct (is_skip_key (C.c_str key_buf)); [reflexivity|].
    rewrite cards_update_unusable by assumption. reflexivity.
Qed.

Lemma file_turn_unusable f kv :
  unusable kv -> skipped_by_name kv = false -> file_turn f kv = Ret tt.
Proof.
  destruct kv as [key value]. unfold unusable, skipped_by_name, file_turn.
  simpl fst. simpl snd. intros [Hk | [Hn Hs]].
  - rewrite Hk. reflexivity.
  - destruct (enif_get_atom key Fits.FLEN_KEYWORD) as [key_buf|]; [|reflexivity].
    intros ->. rewrite file_update_unusable by assumption. reflexivity.
Qed.

Lemma file_turn_skipped f kv :
  skipped_by_name kv = true ->
  exists key_str,
    file_turn f kv = call (fprintf_stderr "Skipping header key: %s\n" [FStr key_str]).
Proof.
  destruct kv as [key value]. unfold skipped_by_name, file_turn. simpl fst.
  destruct (enif_get_atom key Fits.FLEN_KEYWORD) as [key_buf|]; [|discriminate].
  intros ->. eexists. reflexivity.
Qed.

Lemma cards_loop_drop f kv W (h : handler W) pairs1 pairs2 :
  cards_turn f 0 kv = Ret false ->
  forall w, exec h (cards_loop f 0 (pairs1 ++ kv :: pairs2)) w
            = exec h (cards_loop f 0 (pairs1 ++ pairs2)) w.
Proof.
  intros Hkv. induction pairs1 as [|kv1 rest IH]; intros w.
  - simpl. rewrite Hkv. reflexivity.
  - simpl. apply exec_bind_ext. intros [] w'; [reflexivity | apply IH].
Qed.

Lemma file_loop_drop f kv W (h : handler W) pairs1 pairs2 :
  file_turn f kv = Ret tt ->
  forall w, exec h (file_loop f (pairs1 ++ kv :: pairs2)) w
            = exec h (file_loop f (pairs1 ++ pairs2)) w.
Proof.
  intros Hkv. induction pairs1 as [|kv1 rest IH]; intros w.
  - simpl. rewrite Hkv. reflexivity.
  - simpl. apply exec_bind_ext. intros [] w'. apply IH.
Qed.

(** [write_header_cards] runs its loop, when it gets there, with status 0;
    two maps on which the loop does the same are written the same. *)
Lemma write_header_cards_ext name pairs pairs' W (h : handler W) (w : W) :
  (forall f w', exec h (cards_loop f 0 pairs) w' = exec h (cards_loop f 0 pairs') w') ->
  exec h (write_header_cards [TBinary name; TMap pairs]) w
  = exec h (write_header_cards [TBinary name; TMap pairs']) w.
Proof.
  intros E. unfold write_header_cards, arg_binary. simpl.
  destruct (FILENAME_SIZE <=? binary_size name); [reflexivity|].
  run h; try reflexivity.
  status_zero.
  unfold mbind, prog_bind. rewrite !exec_bind. simpl. rewrite E. reflexivity.
Qed.

Lemma write_fits_file_ext name data width height bitpix pairs pairs'
    W (h : handler W) (w : W) :
  (forall f w', exec h (file_loop f pairs) w' = exec h (file_loop f pairs') w') ->
  exec h (write_fits_file [TBinary name; TBinary data; TInt width; TInt height;
                           TInt bitpix; TMap pairs]) w
  = exec h (write_fits_file [TBinary name; TBinary data; TInt width; TInt height;
                             TInt bitpix; TMap pairs']) w.
Proof.
  intros E. unfold write_fits_file, header_argument, arg_binary, arg_long, arg_int. simpl.
  destruct (FILENAME_SIZE <=? binary_size name); [reflexivity|].
  simpl. answer h. simpl.
  destruct (C.in_long width); [|reflexivity].
  destruct (C.in_long height); [|reflexivity].
  destruct (C.in_int bitpix); [|reflexivity].
  destruct (negb (expected_bytes width height =? binary_size data)); [reflexivity|].
  run h; try reflexivity.
  unfold mbind, prog_bind. rewrite !exec_bind. simpl. rewrite E. reflexivity.
Qed.

(** C10: an entry whose key is no atom that fits the keyword buffer, or
    whose value is neither a number nor a list of Latin-1 codes that fits the
    value buffer (a binary is none), leaves no mark: against any library,
    [write_header_cards] runs on the map with the entry exactly as on the map
    without it (same calls, same output to [stderr], same result), and so
    does [write_fits_file] unless the key is a structural keyword, for which
    its turn is the one line "Skipping header key" and nothing else. *)
Theorem unusable_entries_are_invisible (kv : term * term) :
  unusable kv ->
  (forall name pairs1 pairs2 W (h : handler W) (w : W),
     exec h (write_header_cards [TBinary name; TMap (pairs1 ++ kv :: pairs2)]) w
     = exec h (write_header_cards [TBinary name; TMap (pairs1 ++ pairs2)]) w)
  /\ (forall name data width height bitpix pairs1 pairs2 W (h : handler W) (w : W),
     skipped_by_name kv = false ->
     exec h (write_fits_file [TBinary name; TBinary data; TInt width; TInt height;
                              TInt bitpix; TMap (pairs1 ++ kv :: pairs2)]) w
     = exec h (write_fits_file [TBinary name; TBinary data; TInt width; TInt height;
                                TInt bitpix; TMap (pairs1 ++ pairs2)]) w)
  /\ (forall f, skipped_by_name kv = true ->
     exists key_str,
       file_turn f kv
       = call (fprintf_stderr "Skipping header key: %s\n" [FStr key_str])).
Proof.
  intros Hkv. split; [|split].
  - intros. apply write_header_cards_ext. intros f w'.
    apply cards_loop_drop, cards_turn_unusable, Hkv.
  - intros. apply write_fits_file_ext. intros f w'.
    apply file_loop_drop, file_turn_unusable; assumption.
  - intros f. apply file_turn_skipped.
Qed.

(** *** Structural keywords *)

Lemma spares_update f datatype keyname value status (st : Z) :
  is_skip_key keyname = false ->
  spares_structure (Ev (fits_update_key f datatype keyname value status) st) = true.
Proof. intros H. unfold spares_structure. simpl. rewrite H. reflexivity. Qed.

Lemma cards_loop_spares f st pairs W (h : handler W) :
  forall w, forallb spares_structure (trace (exec h (cards_loop f st pairs) w)) = true.
Proof.
  induction pairs as [|[key value] rest IH]; intros w; [reflexivity|].
  simpl. unfold cards_turn.
  destruct (enif_get_atom key Fits.FLEN_KEYWORD) as [key_buf|]; [|simpl; apply IH].
  destruct (is_skip_key (C.c_str key_buf)) eqn:Hs; [simpl; apply IH|].
  unfold cards_update, log_update_failure.
  destruct (enif_is_number value);
    [ destruct (enif_get_long value); [|destruct (enif_get_double value)]
    | destruct (enif_is_binary value || enif_is_list value);
      [destruct (enif_get_string value Fits.FLEN_VALUE) as [n buf]; destruct (0 <? n)|] ];
    run h; rewrite ?spares_update by assumption; solve [apply IH | reflexivity].
Qed.

Lemma file_loop_spares f pairs W (h : handler W) :
  forall w, forallb spares_structure (trace (exec h (file_loop f pairs) w)) = true.
Proof.
  induction pairs as [|[key value] rest IH]; intros w; [reflexivity|].
  simpl. unfold file_turn.
  destruct (enif_get_atom key Fits.FLEN_KEYWORD) as [key_buf|]; [|simpl; apply IH].
  destruct (is_skip_key (C.c_str key_buf)) eqn:Hs.
  { run h. apply IH. }
  unfold file_update.
  destruct (enif_is_number value);
    [ destruct (enif_get_long value); [|destruct (enif_get_double value)]
    | destruct (enif_is_binary value || enif_is_list value);
      [destruct (enif_get_string value Fits.FLEN_VALUE) as [n buf]; destruct (0 <? n)|] ];
    run h; rewrite ?spares_update by assumption; solve [apply IH | reflexivity].
Qed.

Lemma write_header_cards_spares argv W (h : handler W) (w : W) :
  forallb spares_structure (trace (exec h (write_header_cards argv) w)) = true.
Proof.
  unfold write_header_cards.
  destruct (arg_binary argv 0) as [name|]; [|reflexivity].
  destruct (FILENAME_SIZE <=? binary_size name); [reflexivity|].
  destruct (nth_error argv 1) as [[]|]; try reflexivity.
  run h; try reflexivity.
  unfold mbind, prog_bind. rewrite trace_bind, forallb_app, cards_loop_spares.
  run h; reflexivity.
Qed.

Lemma write_fits_file_spares argv W (h : handler W) (w : W) :
  forallb spares_structure (trace (exec h (write_fits_file argv) w)) = true.
Proof.
  unfold write_fits_file.
  destruct ((length argv <? 4)%nat || (6 <? length argv)%nat); [reflexivity|].
  destruct (arg_binary argv 0) as [name|]; [|reflexivity].
  destruct (FILENAME_SIZE <=? binary_size name); [reflexivity|].
  destruct (arg_binary argv 1) as [data|]; [|reflexivity].
  destruct (arg_long argv 2) as [width|], (arg_long argv 3) as [height|];
    try (run h; reflexivity).
  destruct (if (5 <=? length argv)%nat then arg_int argv 4 else Some Fits.FLOAT_IMG);
    [|run h; reflexivity].
  destruct (header_argument argv) as [[pairs|]|]; run h; try reflexivity.
  unfold mbind, prog_bind. rewrite trace_bind, forallb_app, file_loop_spares.
  run h; reflexivity.
Qed.

Lemma skip_key_cases name :
  In name skip_keys ->
  enif_get_atom (TAtom name) Fits.FLEN_KEYWORD = Some name
  /\ is_skip_key (C.c_str name) = true /\ C.c_str name = name.
Proof.
  unfold skip_keys. simpl.
  intros H. repeat (destruct H as [<-|H]; [repeat split; reflexivity|]). destruct H.
Qed.

Lemma structural_in kv :
  structural kv = true -> exists name, fst kv = TAtom name /\ In name skip_keys.
Proof.
  unfold structural. destruct (fst kv); try discriminate.
  intros H. apply existsb_exists in H as (k & Hin & Hk).
  apply String.eqb_eq in Hk. subst k. eauto.
Qed.

Lemma cards_turn_structural f st kv : structural kv = true -> cards_turn f st kv = Ret false.
Proof.
  intros H. destruct (structural_in kv H) as (name & Hk & Hin).
  destruct kv as [key value]. simpl in Hk. subst key.
  destruct (skip_key_cases name Hin) as (Ha & Hs & _).
  unfold cards_turn. rewrite Ha, Hs. reflexivity.
Qed.

Lemma cards_loop_filter f st pairs W (h : handler W) :
  forall w, exec h (cards_loop f st pairs) w
            = exec h (cards_loop f st (List.filter (fun kv => negb (structural kv)) pairs)) w.
Proof.
  induction pairs as [|kv rest IH]; intros w; [reflexivity|].
  simpl. destruct (structural kv) eqn:Hkv; simpl.
  - rewrite (cards_turn_structural f st kv Hkv). simpl. apply IH.
  - apply exec_bind_ext. intros [] w'; [reflexivity | apply IH].
Qed.

(** The keywords of the list, spelled as in the list: no run of
    [write_header_cards] or [write_fits_file], on any arguments and against
    any library, holds an update of SIMPLE, BITPIX, NAXIS, NAXIS1, NAXIS2,
    NAXIS3 or END.  The turn of the loop on an entry with
    such a key is nothing in [write_header_cards] and the one line "Skipping
    header key" to [stderr] in [write_fits_file]; and [write_header_cards]
    runs on a map exactly as on the map without its structural entries:
    they bring no error. *)
Theorem structural_keys_are_skipped :
  (forall argv W (h : handler W) (w : W),
     forallb spares_structure (trace (exec h (write_header_cards argv) w)) = true
     /\ forallb spares_structure (trace (exec h (write_fits_file argv) w)) = true)
  /\ (forall name value (f : fptr),
     In name skip_keys ->
     (forall status, cards_turn f status (TAtom name, value) = Ret false)
     /\ file_turn f (TAtom name, value)
        = call (fprintf_stderr "Skipping header key: %s\n" [FStr name]))
  /\ (forall name pairs W (h : handler W) (w : W),
     exec h (write_header_cards [TBinary name; TMap pairs]) w
     = exec h (write_header_cards
                 [TBinary name;
                  TMap (List.filter (fun kv => negb (structural kv)) pairs)]) w).
Proof.
  split; [|split].
  - intros. split; [apply write_header_cards_spares | apply write_fits_file_spares].
  - intros name value f Hin. destruct (skip_key_cases name Hin) as (Ha & Hs & Hc).
    split.
    + intros status. unfold cards_turn. rewrite Ha, Hs. reflexivity.
    + unfold file_turn. rewrite Ha, Hs, Hc. reflexivity.
  - intros. apply write_header_cards_ext. intros f w'. apply cards_loop_filter.
Qed.

(** *** Failures of single updates *)

Lemma cards_loop_isolates f pairs W (h : handler W) :
  forall w,
    map attempt (updates (trace (exec h (cards_loop f 0 pairs) w))) = omap planned pairs
    /\ forall tr', failures_logged (trace (exec h (cards_loop f 0 pairs) w) ++ tr')
                  = failures_logged tr'.
Proof.
  induction pairs as [|[key value] rest IH]; intros w; [split; reflexivity|].
  rewrite cards_loop_cons.
  assert (Hcons : omap planned ((key, value) :: rest)
                  = match planned (key, value) with
                    | Some y => y :: omap planned rest
                    | None => omap planned rest
                    end) by reflexivity.
  rewrite Hcons. clear Hcons.
  unfold planned, cards_turn. unfold enif_get_atom.
  destruct key; try (simpl; apply IH).
  destruct (String.length name + 1 <=? Fits.FLEN_KEYWORD)%nat; [|simpl; apply IH].
  destruct (is_skip_key (C.c_str name)) eqn:Hs; [simpl; apply IH|].
  simpl andb. cbv iota.
  unfold cards_update, log_update_failure.
  destruct value; simpl enif_is_number; cbv iota; simpl enif_get_long; simpl enif_get_double;
    simpl enif_is_binary; simpl enif_is_list; simpl orb; cbv iota;
    try destruct (C.in_long z);
    try rewrite get_string_binary;
    try (destruct (enif_get_string (TList elems) Fits.FLEN_VALUE) as [n text];
         destruct (0 <? n));
    run h; settle_status; try congruence; simpl;
    rewrite ?Z.eqb_refl, ?String.eqb_refl; simpl;
    (split; [try f_equal; apply IH | intros tr'; apply IH]).
Qed.

Lemma file_loop_isolates f pairs W (h : handler W) :
  forall w,
    map attempt (updates (trace (exec h (file_loop f pairs) w))) = omap planned pairs
    /\ forall tr', failures_logged (trace (exec h (file_loop f pairs) w) ++ tr')
                  = failures_logged tr'.
Proof.
  induction pairs as [|[key value] rest IH]; intros w; [split; reflexivity|].
  rewrite file_loop_cons.
  assert (Hcons : omap planned ((key, value) :: rest)
                  = match planned (key, value) with
                    | Some y => y :: omap planned rest
                    | None => omap planned rest
                    end) by reflexivity.
  rewrite Hcons. clear Hcons.
  unfold planned, file_turn. unfold enif_get_atom.
  destruct key; try (simpl; apply IH).
  destruct (String.length name + 1 <=? Fits.FLEN_KEYWORD)%nat; [|simpl; apply IH].
  destruct (is_skip_key (C.c_str name)) eqn:Hs.
  { run h. apply IH. }
  simpl andb. cbv iota. unfold file_update.
  destruct value; simpl enif_is_number; cbv iota; simpl enif_get_long; simpl enif_get_double;
    simpl enif_is_binary; simpl enif_is_list; simpl orb; cbv iota;
    try destruct (C.in_long z);
    try rewrite get_string_binary;
    try (destruct (enif_get_string (TList elems) Fits.FLEN_VALUE) as [n text];
         destruct (0 <? n));
    run h; settle_status; try congruence; simpl;
    rewrite ?Z.eqb_refl, ?String.eqb_refl; simpl;
    (split; [try f_equal; apply IH | intros tr'; apply IH]).
Qed.



End HeaderStage.

(** ** Runs against the reference implementation *)

Section RefFacts.
Context {P : Platform} {RP : RefParams}.
Import Ref.

Lemma bytes_from_all s : bytes_from s 0 (String.length s) = s.
Proof.
  unfold bytes_from. rewrite substring_all, Nat.sub_diag. apply append_empty.
Qed.

Lemma overwrite_fresh data : overwrite EmptyString 0 data = data.
Proof.
  unfold overwrite, bytes_from.
  change (String.append data (String.substring (0 + String.length data)
            (0 - (0 + String.length data)) EmptyString) = data).
  replace (String.substring (0 + String.length data) (0 - (0 + String.length data))
             EmptyString) with EmptyString
    by (destruct (0 + String.length data)%nat; reflexivity).
  apply append_empty.
Qed.

Lemma sizes_exact width height :
  0 <= width * height -> width * height * 4 < C.SIZE_MODULUS ->
  expected_bytes width height = width * height * 4
  /\ C.wrap_long (width * height) = width * height
  /\ pixel_bytes (width * height) = width * height * 4.
Proof.
  unfold expected_bytes, pixel_bytes, C.wrap_long, C.to_ulong, C.sizeof_float, C.SIZE_MODULUS.
  intros H0 H1.
  assert (E : (width * height + 2 ^ 63) mod 2 ^ 64 - 2 ^ 63 = width * height).
  { rewrite Z.mod_small; lia. }
  rewrite E. rewrite (Z.mod_small (width * height)) by lia.
  rewrite Z.mod_small by lia. auto.
Qed.

Lemma in_long_small z : 0 <= z < 2 ^ 62 -> C.in_long z = true.
Proof.
  unfold C.in_long, C.LONG_MIN, C.LONG_MAX. intros H.
  apply andb_true_iff. split; apply Z.leb_le; lia.
Qed.

Lemma ref_create_file w name :
  name <> EmptyString -> disk w !! name = None ->
  ref_call _ (fits_create_file name 0) w
  = ((next_handle w, 0),
     World (<[name := None]> (disk w))
           (<[next_handle w := (name, Fits.READWRITE)]> (handles w))
           (S (next_handle w)) (stderr w) (headers w)).
Proof.
  intros Hn Hd. unfold ref_call. simpl.
  destruct (String.eqb_spec name EmptyString); [contradiction|].
  rewrite Hd. reflexivity.
Qed.

Lemma ref_create_img w f name bitpix width height :
  handles w !! f = Some (name, Fits.READWRITE) ->
  valid_bitpix bitpix = true -> 0 <= width -> 0 <= height ->
  ref_call _ (fits_create_img f bitpix 2 [width; height] 0) w
  = (0, with_disk w (<[name := Some (Image bitpix [width; height] EmptyString)]> (disk w))).
Proof.
  intros Hh Hb Hw Hht. unfold ref_call. simpl. rewrite Hh, Hb. simpl.
  destruct (Z.ltb_spec width 0); [lia|]. destruct (Z.ltb_spec height 0); [lia|].
  reflexivity.
Qed.

Lemma ref_write_pix w f name bitpix width height data old :
  handles w !! f = Some (name, Fits.READWRITE) ->
  disk w !! name = Some (Some (Image bitpix [width; height] old)) ->
  0 <= width * height ->
  Z.of_nat (String.length data) = 4 * (width * height) ->
  ref_call _ (fits_write_pix f Fits.TFLOAT [1; 1] (width * height) data 0) w
  = (0, with_disk w
          (<[name := Some (Image bitpix [width; height] (overwrite old 0 data))]>
             (disk w))).
Proof.
  intros Hh Hd Hn Hlen. unfold ref_call, image_of. simpl. rewrite Hh, Hd.
  unfold in_image. simpl.
  replace (1 - 1 + width * (1 - 1 + height * 0)) with 0 by lia. simpl.
  destruct (Z.leb_spec 0 (width * height)); [|lia].
  replace (width * (height * 1)) with (width * height) by lia.
  rewrite Z.leb_refl. simpl.
  rewrite <- Hlen, Nat2Z.id, bytes_from_all. reflexivity.
Qed.

Lemma ref_close w f entry status :
  handles w !! f = Some entry ->
  ref_call _ (fits_close_file f status) w = (status, close_handle w f).
Proof. intros Hh. unfold ref_call. rewrite Hh. reflexivity. Qed.

Lemma ref_open_file w name iomode img :
  name <> EmptyString -> disk w !! name = Some (Some img) ->
  ref_call _ (fits_open_file name iomode 0) w
  = ((next_handle w, 0),
     World (disk w) (<[next_handle w := (name, iomode)]> (handles w))
           (S (next_handle w)) (stderr w) (headers w)).
Proof.
  intros Hn Hd. unfold ref_call. simpl.
  destruct (String.eqb_spec name EmptyString); [contradiction|].
  rewrite Hd. reflexivity.
Qed.

Lemma ref_get_img_param w f name iomode img maxdim naxes :
  handles w !! f = Some (name, iomode) -> disk w !! name = Some (Some img) ->
  ref_call _ (fits_get_img_param f maxdim naxes 0) w
  = ((img_bitpix img, Z.of_nat (length (img_naxes img)),
      fill_naxes (Z.to_nat maxdim) (img_naxes img) naxes, 0), w).
Proof. intros Hh Hd. unfold ref_call, image_of. simpl. rewrite Hh, Hd. reflexivity. Qed.

Lemma ref_read_pix w f name iomode width height data :
  handles w !! f = Some (name, iomode) ->
  disk w !! name = Some (Some (Image Fits.FLOAT_IMG [width; height] data)) ->
  0 <= width * height ->
  Z.of_nat (String.length data) = 4 * (width * height) ->
  ref_call _ (fits_read_pix f Fits.TFLOAT [1; 1] (width * height) 0) w = ((data, 0), w).
Proof.
  intros Hh Hd Hn Hlen. unfold ref_call, image_of. simpl. rewrite Hh, Hd.
  unfold in_image, samples. simpl.
  replace (1 - 1 + width * (1 - 1 + height * 0)) with 0 by lia. simpl.
  destruct (Z.leb_spec 0 (width * height)); [|lia].
  replace (width * (height * 1)) with (width * height) by lia.
  rewrite Z.leb_refl. simpl.
  rewrite <- Hlen, Nat2Z.id, bytes_from_all. reflexivity.
Qed.

Lemma ref_malloc w size : ref_call _ (malloc size) w = (true, w).
Proof. reflexivity. Qed.

Lemma ref_alloc_binary w size : ref_call _ (enif_alloc_binary size) w = (true, w).
Proof. reflexivity. Qed.

(** Where the path is free the round trip holds: on the reference library,
    for a path under which a file can be created (it fits the buffer,
    holds no NUL, and names no file yet), a
    positive width and height and a buffer of [width * height] samples of 4
    bytes, [write_image path buffer width height] answers [ok], and
    [read_image path] on the disk it leaves answers [ok] with the width, the
    height and the very bytes of the buffer. *)
Theorem write_read_roundtrip (w : world) (path data : string) (width height : Z) :
  creatable w path ->
  0 < width -> 0 < height ->
  binary_size data = width * height * 4 ->
  binary_size data < C.SIZE_MODULUS ->
  let o := exec ref_call
             (write_image [TBinary path; TBinary data; TInt width; TInt height]) w in
  result o = Return atom_ok
  /\ result (exec ref_call (read_image [TBinary path]) (final o))
     = Return (enif_make_tuple2 atom_ok
                 (enif_make_tuple3 (enif_make_long width) (enif_make_long height)
                    (TBinary data))).
Proof.
  intros (Hfit & Hstr & Hne & Hfree) Hw Hh Hlen Hsize.
  assert (Hwh : 0 < width * height) by nia.
  assert (Hw' : 0 <= width < 2 ^ 62) by (unfold C.SIZE_MODULUS in Hsize; nia).
  assert (Hh' : 0 <= height < 2 ^ 62) by (unfold C.SIZE_MODULUS in Hsize; nia).
  destruct (sizes_exact width height) as (Hexp & Hwrap & Hpix); [lia | lia |].
  assert (Hlen' : Z.of_nat (String.length data) = 4 * (width * height))
    by (unfold binary_size in Hlen; lia).
  unfold write_image, read_image, arg_binary, arg_long, enif_get_long. simpl.
  destruct (Z.leb_spec FILENAME_SIZE (binary_size path)); [lia|].
  rewrite !in_long_small by assumption.
  rewrite Hexp, Hlen, Z.eqb_refl, Hstr, Hwrap. simpl.
  rewrite ref_create_file by assumption. simpl.
  erewrite ref_create_img;
    [| simpl; apply lookup_insert_eq | reflexivity | lia | lia]. simpl.
  erewrite ref_write_pix;
    [| simpl; apply lookup_insert_eq | simpl; apply lookup_insert_eq | lia | exact Hlen'].
  simpl.
  erewrite ref_close; [| simpl; apply lookup_insert_eq]. simpl.
  split; [reflexivity|].
  rewrite overwrite_fresh.
  erewrite ref_open_file; [| assumption | simpl; apply lookup_insert_eq]. simpl.
  erewrite ref_get_img_param;
    [| simpl; apply lookup_insert_eq | simpl; apply lookup_insert_eq]. simpl.
  rewrite Hwrap, Hpix.
  rewrite ?ref_malloc. simpl.
  erewrite ref_read_pix;
    [| simpl; apply lookup_insert_eq | simpl; apply lookup_insert_eq | lia | exact Hlen'].
  simpl.
  erewrite ref_close; [| simpl; apply lookup_insert_eq]. simpl.
  rewrite ?ref_alloc_binary. simpl.
  unfold string_take.
  replace (Z.to_nat (width * height * 4)) with (String.length data) by lia.
  rewrite substring_all. reflexivity.
Qed.

End RefFacts.

(** [write_image] never calls [remove]. *)
Lemma write_image_removes_nothing {P : Platform} (argv : list term) W (h : handler W) (w : W) :
  omap removes (trace (exec h (write_image argv) w)) = [].
Proof.
  unfold write_image.
  destruct ((length argv <? 4)%nat || (5 <? length argv)%nat); [reflexivity|].
  destruct (arg_binary argv 0) as [name|]; [|reflexivity].
  destruct (FILENAME_SIZE <=? binary_size name); [reflexivity|].
  destruct (arg_binary argv 1) as [data|]; [|reflexivity].
  destruct (arg_long argv 2) as [width|], (arg_long argv 3) as [height|];
    try reflexivity.
  destruct (if (length argv =? 5)%nat then arg_int argv 4 else Some Fits.FLOAT_IMG);
    [|reflexivity].
  run h; reflexivity.
Qed.

(** C7 fails on the code for [write_image]: no run of it calls [remove].  On
    the reference library with a file [old.fits] on the disk, [write_image]
    to that name answers the error 105 (the file could not be created) and
    the old file stays as it was, while [write_fits_file] on the same
    arguments removes the file first, answers [ok] and leaves the new image. *)
Theorem write_image_keeps_existing_file :
  (forall (P : Platform) (argv : list term) W (h : handler W) (w : W),
     omap removes (trace (exec h (write_image argv) w)) = [])
  /\ (let old := Ref.Image Fits.FLOAT_IMG [1; 1] "abcd" in
      let argv := [TBinary "old.fits"; TBinary "wxyz"; TInt 1; TInt 1] in
      let o := exec Ref.ref_call (write_image (P := bits_platform) argv)
                 (world_with "old.fits" old) in
      let o' := exec Ref.ref_call (write_fits_file (P := bits_platform) argv)
                  (world_with "old.fits" old) in
      result o = error_status Ref.FILE_NOT_CREATED
      /\ Ref.disk (final o) !! "old.fits" = Some (Some old)
      /\ omap removes (trace o') = ["old.fits"]
      /\ result o' = Return atom_ok
      /\ Ref.disk (final o') !! "old.fits"
         = Some (Some (Ref.Image Fits.FLOAT_IMG [1; 1] "wxyz"))).
Proof.
  split.
  - intros. apply write_image_removes_nothing.
  - vm_compute. repeat split; reflexivity.
Qed.

(** ** Closed examples *)


Lemma roundtrip_of_two_samples :
  let o := exec Ref.ref_call
             (write_image (P := bits_platform)
                [TBinary "m31.fits"; TBinary "abcdefgh"; TInt 2; TInt 1])
             empty_world in
  result o = Return atom_ok
  /\ result (exec Ref.ref_call (read_image [TBinary "m31.fits"]) (final o))
     = Return (enif_make_tuple2 atom_ok
                 (enif_make_tuple3 (enif_make_long 2) (enif_make_long 1)
                    (TBinary "abcdefgh"))).
Proof.
  apply (write_read_roundtrip (P := bits_platform) empty_world "m31.fits" "abcdefgh" 2 1).
  - split; [vm_compute; reflexivity|].
    split; [reflexivity|]. split; [discriminate | reflexivity].
  - lia.
  - lia.
  - reflexivity.
  - vm_compute. reflexivity.
Defined.

Lemma read_image_rejects_a_cube :
  let o := exec Ref.ref_call (read_image (P := bits_platform) [TBinary "cube.fits"])
             (world_with "cube.fits" (Ref.Image Fits.FLOAT_IMG [2; 2; 2] "")) in
  (exists st, result o = error_status st)
  /\ existsb reads_pixels (trace o) = false.
Proof.
  apply (read_image_rejects_other_axis_counts (P := bits_platform)
           [TBinary "cube.fits"] Ref.world Ref.ref_call
           (world_with "cube.fits" (Ref.Image Fits.FLOAT_IMG [2; 2; 2] "")) 3).
  - vm_compute. right. left. reflexivity.
  - lia.
Defined.

Lemma naxis1_entry_is_skipped :
  (forall status,
     cards_turn (P := bits_platform) O status (TAtom "NAXIS1", TInt 999) = Ret false)
  /\ file_turn (P := bits_platform) O (TAtom "NAXIS1", TInt 999)
     = call (fprintf_stderr "Skipping header key: %s\n" [FStr "NAXIS1"]).
Proof.
  apply (proj1 (proj2 (structural_keys_are_skipped (P := bits_platform)))
           "NAXIS1" (TInt 999) O).
  simpl. do 3 right. left. reflexivity.
Defined.

(** Five entries, the update of GAIN refused by the library: all five are
    tried and the result is [ok]. *)
Example gain_refused_result_ok :
  let o := exec (refusing "GAIN")
             (write_header_cards [TBinary "m31.fits"; TMap five_entries]) tt in
  result o = Return atom_ok
  /\ map (fun u => (snd (fst (fst u)), snd u)) (updates (trace o))
     = [("OBJECT", 0); ("EXPTIME", 0); ("GAIN", 207); ("FILTER", 0); ("NCOMBINE", 0)].
Proof. vm_compute. split; reflexivity. Qed.

Lemma binary_entry_is_invisible :
  exec (refusing "GAIN")
    (write_header_cards (P := bits_platform)
       [TBinary "m31.fits";
        TMap ([(TAtom "EXPTIME", TInt 120)] ++ (TAtom "OBJECT", TBinary "M31") :: [])]) tt
  = exec (refusing "GAIN")
      (write_header_cards (P := bits_platform)
         [TBinary "m31.fits"; TMap ([(TAtom "EXPTIME", TInt 120)] ++ [])]) tt.
Proof.
  apply (proj1 (unusable_entries_are_invisible (P := bits_platform)
                  (TAtom "OBJECT", TBinary "M31")
                  (or_intror (conj eq_refl (Z.le_refl 0))))).
Defined.

(** * Further properties *)

(** * More of the code *)

(** ** What every NIF keeps to *)

Lemma c_str_length buf : (String.length (C.c_str buf) <= String.length buf)%nat.
Proof.
  induction buf as [|c r IH]; unfold C.c_str; fold C.c_str; [reflexivity|].
  destruct (Ascii.eqb c C.NUL); simpl; lia.
Qed.

Lemma name_in_buffer bin :
  (FILENAME_SIZE <=? binary_size bin) = false ->
  (Z.of_nat (String.length (C.c_str bin)) <? FILENAME_SIZE) = true.
Proof.
  unfold binary_size. intros H. apply Z.leb_gt in H. apply Z.ltb_lt.
  pose proof (c_str_length bin). lia.
Qed.

(** The end of a path of a run without a loop: the parts of
    [disciplined] on a trace that is written out. *)
Ltac leaf_steps :=
  status_zero; settle_status; unfold disciplined, name_fits, float_transfer; simpl;
  settle_status; rewrite ?name_in_buffer by assumption; simpl;
  repeat match goal with
  | |- _ /\ _ => split
  | |- forall st, _ = error_status st -> _ =>
      let E := fresh in intros ? E; try discriminate E; inversion E; subst; try reflexivity
  | |- forall reason, _ = error_atom reason -> _ =>
      let E := fresh in intros ? E; try discriminate E
  | |- _ = Badarg -> _ => let E := fresh in intros E; try discriminate E
  | |- _ = true -> _ = true -> _ =>
      let E := fresh in
      let S := fresh in
      intros E S; first [discriminate E | discriminate S | reflexivity]
  end;
  try reflexivity.

Ltac leaf := solve [leaf_steps].

Section Discipline.
Context {P : Platform}.

Lemma hello_disciplined W (h : handler W) (w : W) :
  disciplined true (exec h (Ret hello) w).
Proof. leaf. Qed.

Lemma open_fits_disciplined argv W (h : handler W) (w : W) :
  disciplined false (exec h (open_fits argv) w).
Proof.
  unfold open_fits.
  destruct (arg_binary argv 0) as [bin|]; [|leaf].
  destruct (FILENAME_SIZE <=? binary_size bin) eqn:Hfit; [leaf|].
  run h; leaf.
Qed.

Lemma read_image_disciplined argv W (h : handler W) (w : W) :
  disciplined true (exec h (read_image argv) w).
Proof.
  unfold read_image.
  destruct (arg_binary argv 0) as [bin|]; [|leaf].
  destruct (FILENAME_SIZE <=? binary_size bin) eqn:Hfit; [leaf|].
  run h; leaf.
Qed.

Lemma write_image_disciplined argv W (h : handler W) (w : W) :
  disciplined true (exec h (write_image argv) w).
Proof.
  unfold write_image.
  destruct ((length argv <? 4)%nat || (5 <? length argv)%nat); [leaf|].
  destruct (arg_binary argv 0) as [name|]; [|leaf].
  destruct (FILENAME_SIZE <=? binary_size name) eqn:Hfit; [leaf|].
  destruct (arg_binary argv 1) as [data|]; [|leaf].
  destruct (arg_long argv 2) as [width|], (arg_long argv 3) as [height|]; try leaf.
  destruct (if (length argv =? 5)%nat then arg_int argv 4 else Some Fits.FLOAT_IMG);
    [|leaf].
  run h; leaf.
Qed.

End Discipline.

Section Loops.
Context {P : Platform}.

Lemma cards_loop_header_events f st pairs W (h : handler W) :
  forall w, forallb header_event (trace (exec h (cards_loop f st pairs) w)) = true.
Proof.
  induction pairs as [|[key value] rest IH]; intros w; [reflexivity|].
  simpl. unfold cards_turn.
  destruct (enif_get_atom key Fits.FLEN_KEYWORD) as [key_buf|]; [|simpl; apply IH].
  destruct (is_skip_key (C.c_str key_buf)); [simpl; apply IH|].
  unfold cards_update, log_update_failure.
  destruct (enif_is_number value);
    [ destruct (enif_get_long value); [|destruct (enif_get_double value)]
    | destruct (enif_is_binary value || enif_is_list value);
      [destruct (enif_get_string value Fits.FLEN_VALUE) as [n buf]; destruct (0 <? n)|] ];
    run h; solve [apply IH | reflexivity].
Qed.

Lemma file_loop_header_events f pairs W (h : handler W) :
  forall w, forallb header_event (trace (exec h (file_loop f pairs) w)) = true.
Proof.
  induction pairs as [|[key value] rest IH]; intros w; [reflexivity|].
  simpl. unfold file_turn.
  destruct (enif_get_atom key Fits.FLEN_KEYWORD) as [key_buf|]; [|simpl; apply IH].
  destruct (is_skip_key (C.c_str key_buf)).
  { run h. apply IH. }
  unfold file_update.
  destruct (enif_is_number value);
    [ destruct (enif_get_long value); [|destruct (enif_get_double value)]
    | destruct (enif_is_binary value || enif_is_list value);
      [destruct (enif_get_string value Fits.FLEN_VALUE) as [n buf]; destruct (0 <? n)|] ];
    run h; solve [apply IH | reflexivity].
Qed.

Lemma header_events_unseen {A} (obs : event -> option A) (tr : list event) :
  (forall e, header_event e = true -> obs e = None) ->
  forallb header_event tr = true -> omap obs tr = [].
Proof.
  intros Hobs. induction tr as [|e tr IH]; [reflexivity|].
  simpl. intros H. apply andb_true_iff in H as [He Htr].
  rewrite (Hobs e He). apply IH, Htr.
Qed.

Lemma header_events_pass (ok : event -> bool) (tr : list event) :
  (forall e, header_event e = true -> ok e = true) ->
  forallb header_event tr = true -> forallb ok tr = true.
Proof.
  intros Hok. induction tr as [|e tr IH]; [reflexivity|].
  simpl. intros H. apply andb_true_iff in H as [He Htr].
  rewrite (Hok e He). apply IH, Htr.
Qed.

Ltac by_call := intros [X c x]; destruct c; simpl; try discriminate; reflexivity.

Lemma header_event_opens_nothing e : header_event e = true -> opened e = None.
Proof. revert e. by_call. Qed.
Lemma header_event_closes_nothing e : header_event e = true -> closed e = None.
Proof. revert e. by_call. Qed.
Lemma header_event_names_nothing e : header_event e = true -> name_fits e = true.
Proof. revert e. by_call. Qed.
Lemma header_event_moves_nothing e : header_event e = true -> float_transfer e = true.
Proof. revert e. by_call. Qed.

Lemma last_cons_some {A} (a x : A) (l : list A) : last l = Some x -> last (a :: l) = Some x.
Proof. destruct l; [discriminate | intros H; exact H]. Qed.

(** What the loop of [read_header] leaves in the trace. *)
Lemma read_records_disciplined f W (h : handler W) count :
  forall i st m w,
    let o := exec h (read_records f count i st m) w in
    omap opened (trace o) = []
    /\ forallb name_fits (trace o) = true
    /\ forallb float_transfer (trace o) = true
    /\ match result o with
       | inl r => omap closed (trace o) = [f]
                  /\ exists s, r = error_status s
                               /\ last (omap status_of (trace o)) = Some s
       | inr _ => omap closed (trace o) = []
       end.
Proof.
  induction count as [|count IH]; intros i st m w; [simpl; auto|].
  simpl read_records.
  run h;
    try (repeat split; try reflexivity; eexists; split; reflexivity);
    match goal with
    | |- context [exec h (read_records f count ?i ?s ?m) ?w] =>
        destruct (IH i s m w) as (Ho & Hn & Ht & Hr);
        set (rec := exec h (read_records f count i s m) w) in *;
        split; [simpl; exact Ho |];
        split; [simpl; exact Hn |];
        split; [simpl; exact Ht |];
        simpl; destruct (result rec);
        [ destruct Hr as (Hc & s' & Hs & Hl);
          split; [exact Hc |];
          exists s'; split; [exact Hs |];
          repeat apply last_cons_some; exact Hl
        | exact Hr ]
    end.
Qed.

End Loops.

(** The end of a path of a run through a header loop: the loop is [loop],
    and the four facts about its trace are at hand. *)
Ltac loop_leaf :=
  status_zero; settle_status; unfold disciplined; simpl; settle_status; simpl;
  repeat match goal with
  | |- _ /\ _ => split
  | |- forall st, _ = error_status st -> _ =>
      let E := fresh in intros ? E; try discriminate E; inversion E; subst
  | |- forall reason, _ = error_atom reason -> _ =>
      let E := fresh in intros ? E; discriminate E
  | |- _ = Badarg -> _ => let E := fresh in intros E; discriminate E
  | |- _ = true -> _ = true -> _ =>
      let E := fresh in intros E _; try discriminate E
  end;
  rewrite ?omap_app, ?forallb_app; simpl;
  repeat match goal with
  | H : omap _ (trace _) = [] |- _ => rewrite H
  | H : forallb _ (trace _) = true |- _ => rewrite H
  end;
  simpl; unfold name_fits, float_transfer; simpl;
  rewrite ?name_in_buffer by assumption; simpl;
  try reflexivity;
  try (repeat rewrite app_comm_cons; apply last_snoc).

Section LoopDiscipline.
Context {P : Platform}.

Lemma write_header_cards_disciplined argv W (h : handler W) (w : W) :
  disciplined true (exec h (write_header_cards argv) w).
Proof.
  unfold write_header_cards.
  destruct (arg_binary argv 0) as [name|]; [|leaf].
  destruct (FILENAME_SIZE <=? binary_size name) eqn:Hfit; [leaf|].
  destruct (nth_error argv 1) as [[]|]; try leaf.
  run h; try leaf.
  unfold mbind, prog_bind. rewrite exec_bind.
  match goal with |- context [exec h (cards_loop ?f ?s ?ps) ?w] =>
    pose proof (cards_loop_header_events f s ps W h w) as Hev;
    pose proof (header_events_unseen opened _ header_event_opens_nothing Hev) as Hop;
    pose proof (header_events_unseen closed _ header_event_closes_nothing Hev) as Hcl;
    pose proof (header_events_pass name_fits _ header_event_names_nothing Hev) as Hnf;
    pose proof (header_events_pass float_transfer _ header_event_moves_nothing Hev) as Hft;
    clear Hev;
    set (loop := exec h (cards_loop f s ps) w) in *
  end.
  run h; loop_leaf.
Qed.

Lemma write_fits_file_disciplined argv W (h : handler W) (w : W) :
  disciplined true (exec h (write_fits_file argv) w).
Proof.
  unfold write_fits_file.
  destruct ((length argv <? 4)%nat || (6 <? length argv)%nat); [leaf|].
  destruct (arg_binary argv 0) as [name|]; [|leaf].
  destruct (FILENAME_SIZE <=? binary_size name) eqn:Hfit; [leaf|].
  destruct (arg_binary argv 1) as [data|]; [|leaf].
  destruct (arg_long argv 2) as [width|], (arg_long argv 3) as [height|];
    try (run h; leaf).
  destruct (if (5 <=? length argv)%nat then arg_int argv 4 else Some Fits.FLOAT_IMG);
    [|run h; leaf].
  destruct (header_argument argv) as [[pairs|]|]; run h; try leaf.
  unfold mbind, prog_bind. rewrite exec_bind.
  match goal with |- context [exec h (file_loop ?f ?ps) ?w] =>
    pose proof (file_loop_header_events f ps W h w) as Hev;
    pose proof (header_events_unseen opened _ header_event_opens_nothing Hev) as Hop;
    pose proof (header_events_unseen closed _ header_event_closes_nothing Hev) as Hcl;
    pose proof (header_events_pass name_fits _ header_event_names_nothing Hev) as Hnf;
    pose proof (header_events_pass float_transfer _ header_event_moves_nothing Hev) as Hft;
    clear Hev;
    set (loop := exec h (file_loop f ps) w) in *
  end.
  run h; loop_leaf.
Qed.

Lemma read_header_disciplined argv W (h : handler W) (w : W) :
  disciplined true (exec h (read_header argv) w).
Proof.
  unfold read_header.
  destruct (arg_binary argv 0) as [bin|]; [|leaf].
  destruct (FILENAME_SIZE <=? binary_size bin) eqn:Hfit; [leaf|].
  run h; try leaf.
  unfold mbind, prog_bind. rewrite exec_bind.
  match goal with |- context [exec h (read_records ?f ?n ?i ?s ?m) ?w] =>
    destruct (read_records_disciplined f W h n i s m w) as (Hop & Hnf & Hft & Hr);
    set (loop := exec h (read_records f n i s m) w) in *
  end.
  simpl. destruct (result loop) as [early | [st hm]].
  - destruct Hr as (Hcl & s & -> & Hl). simpl.
    unfold disciplined. simpl. settle_status. simpl.
    rewrite ?omap_app, ?forallb_app, ?app_nil_r, Hop, Hcl, Hnf, Hft.
    unfold name_fits at 1. simpl. rewrite name_in_buffer by assumption.
    repeat split; try discriminate.
    intros st E. inversion E; subst.
    repeat apply last_cons_some. exact Hl.
  - run h; loop_leaf.
Qed.

(** Every function of the table keeps to the discipline. *)
Lemma nif_disciplined name arity fn argv W (h : handler W) (w : W) :
  In (name, arity, fn) nif_funcs ->
  disciplined (negb (String.eqb name "open_fits")) (exec h (fn argv) w).
Proof.
  unfold nif_funcs. intros H.
  repeat (destruct H as [H|H]; [inversion H; subst; clear H|]); try destruct H.
  - apply hello_disciplined.
  - apply open_fits_disciplined.
  - apply read_image_disciplined.
  - apply read_header_disciplined.
  - apply write_image_disciplined.
  - apply write_image_disciplined.
  - apply write_header_cards_disciplined.
  - apply write_fits_file_disciplined.
  - apply write_fits_file_disciplined.
  - apply write_fits_file_disciplined.
Qed.

End LoopDiscipline.

Section TableFacts.
Context {P : Platform}.

(** X1: whatever the library answers, a NIF of the table closes the handle
    that a successful [fits_open_file] or [fits_create_file] gave it, once,
    and closes no other: on every path out, error paths included. *)
Theorem handles_are_closed name arity fn argv W (h : handler W) (w : W) :
  In (name, arity, fn) nif_funcs ->
  omap opened (trace (exec h (fn argv) w)) = omap closed (trace (exec h (fn argv) w)).
Proof. intros H. apply (nif_disciplined name arity fn argv W h w H). Qed.

(** X2: when a NIF of the table answers [{error, n}] with a number, [n] is
    the status the library answered to the last CFITSIO call of the run. *)
Theorem error_code_is_last_status name arity fn argv W (h : handler W) (w : W) st :
  In (name, arity, fn) nif_funcs ->
  result (exec h (fn argv) w) = error_status st ->
  last (omap status_of (trace (exec h (fn argv) w))) = Some st.
Proof. intros H. apply (nif_disciplined name arity fn argv W h w H). Qed.

(** X3: when a NIF of the table other than [read_header] raises [badarg],
    it has made no call but output to [stderr]: no file was opened, created
    or removed.  ([read_header] is left out: it is the one NIF that builds
    a double, and for a double that is not finite [enif_make_double]
    raises [badarg] itself, after the file was read.) *)
Theorem badarg_before_file_access name arity fn argv W (h : handler W) (w : W) :
  In (name, arity, fn) nif_funcs ->
  name <> "read_header" ->
  result (exec h (fn argv) w) = Badarg ->
  forallb is_stderr (trace (exec h (fn argv) w)) = true.
Proof. intros H _. apply (nif_disciplined name arity fn argv W h w H). Qed.

(** X4: when a NIF of the table answers [{error, reason}] with an atom
    ([dimensions_mismatch], [memory_allocation_failure], [file_not_found]),
    no CFITSIO function was called and no file was removed. *)
Theorem atom_errors_before_library name arity fn argv W (h : handler W) (w : W) reason :
  In (name, arity, fn) nif_funcs ->
  result (exec h (fn argv) w) = error_atom reason ->
  omap status_of (trace (exec h (fn argv) w)) = []
  /\ omap removes (trace (exec h (fn argv) w)) = [].
Proof. intros H. apply (nif_disciplined name arity fn argv W h w H). Qed.

(** X5: every file name a NIF of the table hands to CFITSIO, [fopen] or
    [remove] is shorter than the 1024 bytes of the [filename] buffer. *)
Theorem names_fit_the_buffer name arity fn argv W (h : handler W) (w : W) :
  In (name, arity, fn) nif_funcs ->
  forallb name_fits (trace (exec h (fn argv) w)) = true.
Proof. intros H. apply (nif_disciplined name arity fn argv W h w H). Qed.

(** X6: every pixel transfer of a NIF of the table, reading or writing, is
    of [TFLOAT] samples and starts at the first pixel [{1, 1}], whatever
    [bitpix] was asked for. *)
Theorem pixels_move_as_float name arity fn argv W (h : handler W) (w : W) :
  In (name, arity, fn) nif_funcs ->
  forallb float_transfer (trace (exec h (fn argv) w)) = true.
Proof. intros H. apply (nif_disciplined name arity fn argv W h w H). Qed.

(** X7: when a NIF of the table other than [open_fits] answers [ok] (alone
    or with a value), the last CFITSIO call of the run, the closing of the
    file, answered status 0. *)
Theorem ok_after_clean_close name arity fn argv W (h : handler W) (w : W) :
  In (name, arity, fn) nif_funcs ->
  name <> "open_fits" ->
  is_ok (result (exec h (fn argv) w)) = true ->
  last (omap status_of (trace (exec h (fn argv) w))) = Some 0.
Proof.
  intros H Hname Hok.
  apply (nif_disciplined name arity fn argv W h w H); [exact Hok|].
  apply negb_true_iff, String.eqb_neq, Hname.
Qed.

(** X8: [open_fits] answers [ok] as soon as [fits_open_file] succeeded:
    what [fits_close_file] answers is dropped. *)
Theorem open_fits_ignores_close_status argv W (h : handler W) (w : W) :
  omap opened (trace (exec h (open_fits argv) w)) <> [] ->
  result (exec h (open_fits argv) w) = Return atom_ok.
Proof.
  unfold open_fits.
  destruct (arg_binary argv 0) as [bin|]; [|simpl; congruence].
  destruct (FILENAME_SIZE <=? binary_size bin); [simpl; congruence|].
  run h; settle_status; simpl; congruence.
Qed.

(** X9: [write_fits_file] answers [memory_allocation_failure] whenever
    [malloc] gives NULL, while [read_image] does not look at what [malloc]
    gave: it goes on to [fits_read_pix] all the same. *)
Theorem malloc_checked_by_one_not_the_other argv W (h : handler W) (w : W) :
  (In (Some false) (map allocation (trace (exec h (write_fits_file argv) w))) ->
   result (exec h (write_fits_file argv) w) = error_atom "memory_allocation_failure")
  /\ (In (Some false) (map allocation (trace (exec h (read_image argv) w))) ->
      existsb reads_pixels (trace (exec h (read_image argv) w)) = true).
Proof.
  split.
  - unfold write_fits_file.
    destruct ((length argv <? 4)%nat || (6 <? length argv)%nat); [intros []|].
    destruct (arg_binary argv 0) as [name|]; [|intros []].
    destruct (FILENAME_SIZE <=? binary_size name); [intros []|].
    destruct (arg_binary argv 1) as [data|]; [|intros []].
    destruct (arg_long argv 2) as [width|], (arg_long argv 3) as [height|];
      try (run h; intros [E|[]]; discriminate E).
    destruct (if (5 <=? length argv)%nat then arg_int argv 4 else Some Fits.FLOAT_IMG);
      [|run h; intros [E|[]]; discriminate E].
    destruct (header_argument argv) as [[pairs|]|];
      [| |run h; intros [E|[]]; discriminate E].
    + run h; try reflexivity;
        unfold mbind, prog_bind; rewrite ?exec_bind; simpl;
        intros Hin; exfalso;
        repeat (destruct Hin as [Hin|Hin]; [discriminate Hin|]); try exact Hin.
      match type of Hin with context [exec h (file_loop ?f ?ps) ?w] =>
        pose proof (file_loop_header_events f ps W h w) as Hev;
        set (loop := exec h (file_loop f ps) w) in *
      end.
      rewrite map_app in Hin. apply in_app_or in Hin as [Hin|Hin].
      * clear -Hin Hev. induction (trace loop) as [|e tr IH]; [exact Hin|].
        simpl in Hev. apply andb_true_iff in Hev as [He Htr].
        destruct Hin as [Hin|Hin]; [|exact (IH Hin Htr)].
        destruct e as [X c x]; destruct c; simpl in *; discriminate.
      * revert Hin. run h; intros Hin;
          repeat (destruct Hin as [Hin|Hin]; [discriminate Hin|]); exact Hin.
    + run h; try reflexivity;
        intros Hin; exfalso;
        repeat (destruct Hin as [Hin|Hin]; [discriminate Hin|]); exact Hin.
  - unfold read_image.
    destruct (arg_binary argv 0) as [bin|]; [|intros []].
    destruct (FILENAME_SIZE <=? binary_size bin); [intros []|].
    run h; try reflexivity;
      intros Hin; exfalso;
      repeat (destruct Hin as [Hin|Hin]; [discriminate Hin|]); exact Hin.
Qed.

(** *** The order of a write *)

Lemma stages_through_updates (tr : list event) :
  forallb header_event tr = true ->
  forall from rest,
    (from <= 5)%nat ->
    stages_in_order 5 rest = true ->
    (forall s tl, rest = s :: tl -> (5 < s)%nat) ->
    stages_in_order from (omap stage tr ++ rest) = true.
Proof.
  induction tr as [|e tr IH]; intros Hev from rest Hfrom Hrest Hhd.
  - simpl. destruct rest as [|s tl]; [reflexivity|].
    specialize (Hhd s tl eq_refl). simpl in *.
    apply andb_true_iff in Hrest as [_ Htl]. rewrite Htl.
    replace (from <? s)%nat with true by (symmetry; apply Nat.ltb_lt; lia).
    reflexivity.
  - simpl in Hev. apply andb_true_iff in Hev as [He Htr].
    destruct e as [X c x]; destruct c; simpl in He; try discriminate He.
    + pose proof (IH Htr 5%nat rest (Nat.le_refl 5) Hrest Hhd) as Hgo.
      change (((from <? 5)%nat || ((5 =? 5)%nat && (from =? 5)%nat))
              && stages_in_order 5 (omap stage tr ++ rest) = true).
      rewrite Hgo.
      destruct (Nat.ltb_spec from 5); [reflexivity|].
      replace from with 5%nat by lia. reflexivity.
    + exact (IH Htr from rest Hfrom Hrest Hhd).
    + exact (IH Htr from rest Hfrom Hrest Hhd).
Qed.

(** X10: the three writers go through their stages in one direction:
    removing the old file, creating the file, creating the image, writing the
    pixels, updating header keys, closing.  In any run each of these but the
    updates happens at most once, and none happens after a later one. *)
Theorem writers_go_forward argv W (h : handler W) (w : W) :
  stages_in_order 0 (omap stage (trace (exec h (write_image argv) w))) = true
  /\ stages_in_order 0 (omap stage (trace (exec h (write_fits_file argv) w))) = true
  /\ stages_in_order 0 (omap stage (trace (exec h (write_header_cards argv) w))) = true.
Proof.
  split; [|split].
  - unfold write_image.
    destruct ((length argv <? 4)%nat || (5 <? length argv)%nat); [reflexivity|].
    destruct (arg_binary argv 0) as [name|]; [|reflexivity].
    destruct (FILENAME_SIZE <=? binary_size name); [reflexivity|].
    destruct (arg_binary argv 1) as [data|]; [|reflexivity].
    destruct (arg_long argv 2) as [width|], (arg_long argv 3) as [height|];
      try reflexivity.
    destruct (if (length argv =? 5)%nat then arg_int argv 4 else Some Fits.FLOAT_IMG);
      [|reflexivity].
    run h; reflexivity.
  - unfold write_fits_file.
    destruct ((length argv <? 4)%nat || (6 <? length argv)%nat); [reflexivity|].
    destruct (arg_binary argv 0) as [name|]; [|reflexivity].
    destruct (FILENAME_SIZE <=? binary_size name); [reflexivity|].
    destruct (arg_binary argv 1) as [data|]; [|reflexivity].
    destruct (arg_long argv 2) as [width|], (arg_long argv 3) as [height|];
      try (run h; reflexivity).
    destruct (if (5 <=? length argv)%nat then arg_int argv 4 else Some Fits.FLOAT_IMG);
      [|run h; reflexivity].
    destruct (header_argument argv) as [[pairs|]|]; run h; try reflexivity.
    unfold mbind, prog_bind. rewrite exec_bind. simpl.
    match goal with |- context [exec h (file_loop ?f ?ps) ?w] =>
      pose proof (file_loop_header_events f ps W h w) as Hev;
      set (loop := exec h (file_loop f ps) w) in *
    end.
    run h; rewrite omap_app; simpl;
      (apply stages_through_updates;
       [assumption | lia | reflexivity | intros s tl E; inversion E; lia]).
  - unfold write_header_cards.
    destruct (arg_binary argv 0) as [name|]; [|reflexivity].
    destruct (FILENAME_SIZE <=? binary_size name); [reflexivity|].
    destruct (nth_error argv 1) as [[]|]; try reflexivity.
    run h; try reflexivity.
    unfold mbind, prog_bind. rewrite exec_bind. simpl.
    match goal with |- context [exec h (cards_loop ?f ?s ?ps) ?w] =>
      pose proof (cards_loop_header_events f s ps W h w) as Hev;
      set (loop := exec h (cards_loop f s ps) w) in *
    end.
    run h; rewrite omap_app; simpl;
      (apply stages_through_updates;
       [assumption | lia | reflexivity | intros s tl E; inversion E; lia]).
Qed.

End TableFacts.

(** ** More on the values of a header *)

Section Values.
Context {P : Platform}.

Lemma nul_free_app s t : nul_free s -> nul_free t -> nul_free (s ++ t).
Proof.
  induction 1 as [|c s Hc Hs IH]; intros Ht; [exact Ht|].
  change (nul_free (String c (s ++ t))). constructor; auto.
Qed.

Lemma substring_prefix s t : String.substring 0 (String.length s) (s ++ t) = s.
Proof.
  induction s as [|c s IH]; [destruct t; reflexivity|].
  change (String c (String.substring 0 (String.length s) (s ++ t)) = String c s).
  rewrite IH. reflexivity.
Qed.

Lemma length_app s t :
  String.length (s ++ t) = (String.length s + String.length t)%nat.
Proof.
  induction s as [|c s IH]; [reflexivity|].
  change (S (String.length (s ++ t)) = S (String.length s + String.length t)).
  rewrite IH. reflexivity.
Qed.

Lemma last_of_app s c d :
  List.last (list_ascii_of_string (s ++ String c EmptyString)) d = c.
Proof.
  induction s as [|a s IH]; [reflexivity|].
  change (List.last (a :: list_ascii_of_string (s ++ String c EmptyString)) d = c).
  destruct (list_ascii_of_string (s ++ String c EmptyString)) eqn:E; [|exact IH].
  destruct s; discriminate E.
Qed.

(** X11: a value in quotes is read as the text between the outer quotes,
    whatever that text holds: digits, a point or more quotes. *)
Theorem quoted_value_is_its_text (s : string) :
  nul_free s ->
  decode_value (String quote (s ++ "'")) = enif_make_string s.
Proof.
  intros Hs.
  assert (Hq : nul_free (String quote (s ++ "'"))).
  { constructor; [discriminate|]. apply nul_free_app; [exact Hs|].
    constructor; [discriminate | constructor]. }
  rewrite decode_value_refines, (c_str_id _ Hq).
  unfold decode_value_spec.
  change (begins_with_quote (String quote (s ++ "'"))) with (Ascii.eqb quote quote).
  rewrite Ascii.eqb_refl.
  assert (Hlen : String.length (String quote (s ++ "'")) = S (S (String.length s))).
  { change (S (String.length (s ++ "'")) = S (S (String.length s))).
    rewrite length_app. simpl. lia. }
  rewrite Hlen.
  unfold ends_with_quote.
  change (list_ascii_of_string (String quote (s ++ "'")))
    with (quote :: list_ascii_of_string (s ++ String quote EmptyString)).
  assert (Hlast : List.last (quote :: list_ascii_of_string (s ++ String quote EmptyString))
                    C.NUL = quote).
  { change (List.last (list_ascii_of_string
                         (String quote s ++ String quote EmptyString)) C.NUL = quote).
    apply last_of_app. }
  rewrite Hlast, Ascii.eqb_refl.
  change ((2 <=? S (S (String.length s)))%nat && true) with true.
  cbv iota.
  unfold strip_quotes. rewrite Hlen.
  replace (S (S (String.length s)) - 2)%nat with (String.length s) by lia.
  change (String.substring 1 (String.length s) (String quote (s ++ "'")))
    with (String.substring 0 (String.length s) (s ++ "'")).
  rewrite substring_prefix. reflexivity.
Qed.

Lemma digit_is_plain c :
  C.isdigit c = true ->
  c <> C.NUL /\ Ascii.eqb c quote = false /\ Ascii.eqb c point = false
  /\ C.isspace c = false /\ Ascii.eqb c "-" = false /\ Ascii.eqb c "+" = false.
Proof.
  destruct c as [[] [] [] [] [] [] [] []]; vm_compute; intros H;
    try discriminate H; repeat split; discriminate.
Qed.

Lemma digits_nul_free ds : all_digits ds = true -> nul_free ds.
Proof.
  induction ds as [|c ds IH]; [constructor|].
  unfold all_digits. simpl. intros H. apply andb_true_iff in H as [Hc Hds].
  constructor; [apply digit_is_plain, Hc | apply IH, Hds].
Qed.

Lemma digits_hold_no_point ds : all_digits ds = true -> contains_point ds = false.
Proof.
  induction ds as [|c ds IH]; [reflexivity|].
  unfold all_digits, contains_point. simpl. intros H.
  apply andb_true_iff in H as [Hc Hds].
  destruct (digit_is_plain c Hc) as (_ & _ & -> & _). exact (IH Hds).
Qed.

Lemma integer_parse_digits ds :
  ds <> EmptyString -> all_digits ds = true ->
  integer_parse ds = Some (C.clamp_long (decimal_value ds))
  /\ integer_parse (String "-" ds) = Some (C.clamp_long (- decimal_value ds)).
Proof.
  intros Hne Hds. destruct ds as [|c ds]; [congruence|].
  assert (Hc : C.isdigit c = true)
    by (unfold all_digits in Hds; simpl in Hds; apply andb_true_iff in Hds; tauto).
  destruct (digit_is_plain c Hc) as (_ & _ & _ & Hsp & Hminus & Hplus).
  split.
  - unfold integer_parse. simpl C.skip_space. rewrite Hsp.
    assert (Hsign : match String c ds with
                    | String "-" r => (true, r)
                    | String "+" r => (false, r)
                    | _ => (false, String c ds)
                    end = (false, String c ds)).
    { destruct c as [[] [] [] [] [] [] [] []]; try reflexivity; discriminate. }
    rewrite Hsign, Hds. reflexivity.
  - unfold integer_parse. change (C.skip_space (String "-" (String c ds)))
      with (String "-" (String c ds)).
    cbv iota beta. rewrite Hds. reflexivity.
Qed.

(** X12: a numeral of the header beyond the range of [long] is read as the
    nearest end of the range, with no error: [strtol] saturates and
    [read_header] does not look at [errno]. *)
Theorem numeral_out_of_range_saturates (ds : string) :
  ds <> EmptyString -> all_digits ds = true ->
  2 ^ 63 <= decimal_value ds ->
  decode_value ds = TInt C.LONG_MAX
  /\ decode_value (String "-" ds) = TInt C.LONG_MIN.
Proof.
  intros Hne Hds Hbig.
  destruct (integer_parse_digits ds Hne Hds) as [Hpos Hneg].
  pose proof (digits_nul_free ds Hds) as Hfree.
  pose proof (digits_hold_no_point ds Hds) as Hpoint.
  assert (Hfirst : begins_with_quote ds = false).
  { destruct ds as [|c ds]; [reflexivity|].
    unfold all_digits in Hds. simpl in Hds. apply andb_true_iff in Hds as [Hc _].
    apply (digit_is_plain c Hc). }
  split.
  - rewrite decode_value_refines, (c_str_id _ Hfree).
    unfold decode_value_spec. rewrite Hfirst, Hpoint, Hpos.
    unfold enif_make_long, C.clamp_long, C.LONG_MIN, C.LONG_MAX.
    destruct (Z.ltb_spec (decimal_value ds) (- 2 ^ 63)); [lia|].
    destruct (Z.ltb_spec (2 ^ 63 - 1) (decimal_value ds)); [reflexivity | lia].
  - assert (Hfree' : nul_free (String "-" ds)) by (constructor; [discriminate | exact Hfree]).
    rewrite decode_value_refines, (c_str_id _ Hfree').
    unfold decode_value_spec.
    change (begins_with_quote (String "-" ds)) with false.
    change (contains_point (String "-" ds)) with (false || contains_point ds).
    rewrite Hpoint, Hneg. simpl orb. cbv iota.
    unfold enif_make_long, C.clamp_long, C.LONG_MIN, C.LONG_MAX.
    destruct (Z.ltb_spec (- decimal_value ds) (- 2 ^ 63)); [reflexivity|].
    destruct (Z.ltb_spec (2 ^ 63 - 1) (- decimal_value ds)); [lia|].
    f_equal. lia.
Qed.

(** *** Text on the way out *)

Lemma byte_of_code c : byte_of_term (TInt (C.code c)) = Some c.
Proof.
  unfold byte_of_term, C.code.
  pose proof (N_ascii_bounded c) as Hb.
  destruct (Z.leb_spec 0 (Z.of_N (N_of_ascii c))); [|lia].
  destruct (Z.leb_spec (Z.of_N (N_of_ascii c)) 255); [|lia].
  simpl. rewrite N2Z.id, ascii_N_embedding. reflexivity.
Qed.

Lemma get_string_loop_codes len s : forall n,
  (n < len)%nat ->
  enif_get_string_loop (codes s) n len
  = if (n + String.length s <? len)%nat
    then (Z.of_nat (n + String.length s) + 1, s)
    else (- Z.of_nat len, String.substring 0 (len - 1 - n) s).
Proof.
  induction s as [|c s IH]; intros n Hn.
  - simpl. rewrite Nat.add_0_r.
    destruct (Nat.ltb_spec n len); [reflexivity | lia].
  - change (codes (String c s)) with (TInt (C.code c) :: codes s).
    cbn [enif_get_string_loop]. rewrite byte_of_code.
    destruct (Nat.leb_spec len (S n)) as [Hfull|Hroom].
    + destruct (Nat.ltb_spec (n + String.length (String c s)) len) as [Hlt|_];
        [simpl in Hlt; lia|].
      replace (len - 1 - n)%nat with 0%nat by lia. reflexivity.
    + rewrite (IH (S n) Hroom).
      replace (n + String.length (String c s))%nat with (S n + String.length s)%nat
        by (simpl; lia).
      destruct (Nat.ltb_spec (S n + String.length s) len); [reflexivity|].
      replace (len - 1 - n)%nat with (S (len - 1 - S n)) by lia. reflexivity.
Qed.

Lemma get_string_of_text s :
  enif_get_string (enif_make_string s) Fits.FLEN_VALUE
  = if (String.length (C.c_str s) <=? 70)%nat
    then (Z.of_nat (String.length (C.c_str s)) + 1, C.c_str s)
    else (-71, String.substring 0 70 (C.c_str s)).
Proof.
  unfold enif_get_string, enif_make_string, Fits.FLEN_VALUE.
  change (map (fun c => TInt (C.code c)) (list_ascii_of_string (C.c_str s)))
    with (codes (C.c_str s)).
  rewrite get_string_loop_codes by lia. simpl Nat.add.
  destruct (Nat.ltb_spec (String.length (C.c_str s)) 71),
           (Nat.leb_spec (String.length (C.c_str s)) 70); try lia; reflexivity.
Qed.

Lemma c_str_c_str s : C.c_str (C.c_str s) = C.c_str s.
Proof. apply c_str_id, c_str_nul_free. Qed.

Lemma text_update (f : fptr) (key s : string) (W : Type) (h : handler W) (w : W) :
  ((String.length (C.c_str s) <= 70)%nat ->
     map attempt (updates (trace (exec h (cards_update f key (enif_make_string s)) w)))
     = [(Fits.TSTRING, key, KString (C.c_str s))]
     /\ map attempt (updates (trace (exec h (file_update f key (enif_make_string s)) w)))
        = [(Fits.TSTRING, key, KString (C.c_str s))])
  /\ ((70 < String.length (C.c_str s))%nat ->
        cards_update f key (enif_make_string s) = Ret 0
        /\ file_update f key (enif_make_string s) = Ret 0).
Proof.
  split; intros Hlen.
  - unfold cards_update, file_update.
    change (enif_is_number (enif_make_string s)) with false.
    change (enif_is_binary (enif_make_string s) || enif_is_list (enif_make_string s))
      with true.
    cbv iota. rewrite get_string_of_text.
    destruct (Nat.leb_spec (String.length (C.c_str s)) 70); [|lia].
    destruct (Z.ltb_spec 0 (Z.of_nat (String.length (C.c_str s)) + 1)); [|lia].
    rewrite c_str_c_str. unfold log_update_failure.
    split; run h; reflexivity.
  - unfold cards_update, file_update.
    change (enif_is_number (enif_make_string s)) with false.
    change (enif_is_binary (enif_make_string s) || enif_is_list (enif_make_string s))
      with true.
    cbv iota. rewrite get_string_of_text.
    destruct (Nat.leb_spec (String.length (C.c_str s)) 70); [lia|].
    split; reflexivity.
Qed.

(** X13: a text value, as a list of character codes, is written by both
    writers as a [TSTRING] when it has up to 70 characters, unchanged; one
    of 71 characters or more is passed over by both without a call and
    without a line on [stderr]: [enif_get_string] answers a negative number
    for what does not fit the 71 bytes of [value_str]. *)
Theorem text_value_fits_or_is_dropped (f : fptr) (key s : string)
    (W : Type) (h : handler W) (w : W) :
  let text := C.c_str s in
  ((String.length text <= 70)%nat ->
     map attempt (updates (trace (exec h (cards_update f key (enif_make_string s)) w)))
     = [(Fits.TSTRING, key, KString text)]
     /\ map attempt (updates (trace (exec h (file_update f key (enif_make_string s)) w)))
        = [(Fits.TSTRING, key, KString text)])
  /\ ((70 < String.length text)%nat ->
        cards_update f key (enif_make_string s) = Ret 0
        /\ file_update f key (enif_make_string s) = Ret 0).
Proof. exact (text_update f key s W h w). Qed.

(** *** What the reader gives, the writers take *)

Lemma length_substring s : forall n m,
  (String.length (String.substring n m s) <= String.length s)%nat.
Proof.
  induction s as [|c s IH]; intros n m.
  - destruct n, m; simpl; lia.
  - destruct n as [|n]; [destruct m as [|m]|]; simpl; [lia | | ].
    + specialize (IH 0%nat m). lia.
    + specialize (IH n m). lia.
Qed.

Lemma clamp_in_long z : C.in_long (C.clamp_long z) = true.
Proof.
  unfold C.in_long, C.clamp_long, C.LONG_MIN, C.LONG_MAX.
  destruct (Z.ltb_spec z (- 2 ^ 63)); [reflexivity|].
  destruct (Z.ltb_spec (2 ^ 63 - 1) z); [reflexivity|].
  apply andb_true_iff. split; apply Z.leb_le; lia.
Qed.

Lemma integer_parse_in_long v z : integer_parse v = Some z -> C.in_long z = true.
Proof.
  unfold integer_parse. destruct v as [|c v]; [intros [= <-]; reflexivity|].
  destruct (match C.skip_space (String c v) with
            | String "-" r => (true, r)
            | String "+" r => (false, r)
            | _ => (false, C.skip_space (String c v))
            end) as [neg ds].
  destruct ds; [discriminate|].
  destruct (all_digits _); [|discriminate].
  intros [= <-]. apply clamp_in_long.
Qed.

(** The three shapes of a decoded value. *)
Lemma decode_value_shapes buf :
  (exists z, decode_value buf = TInt z /\ C.in_long z = true)
  \/ (exists d, decode_value buf = TFloat d)
  \/ (exists t, decode_value buf = enif_make_string t
                /\ (String.length (C.c_str t) <= C.strlen buf)%nat).
Proof.
  rewrite decode_value_refines. unfold decode_value_spec, C.strlen.
  set (v := C.c_str buf).
  destruct (begins_with_quote v).
  - right. right. eexists. split; [reflexivity|].
    destruct ((2 <=? String.length v)%nat && ends_with_quote v).
    + unfold strip_quotes.
      rewrite c_str_id by (apply nul_free_substring, c_str_nul_free).
      apply length_substring.
    + unfold v. rewrite c_str_c_str. lia.
  - destruct (contains_point v).
    + right. left. eexists. reflexivity.
    + destruct (integer_parse v) as [z|] eqn:E.
      * left. exists z. split; [reflexivity | exact (integer_parse_in_long v z E)].
      * right. right. exists v. split; [reflexivity|].
        unfold v. rewrite c_str_c_str. lia.
Qed.

(** X14: every value [read_header] decodes from a value field that fits
    the 71 bytes of its buffer is one that both writers apply, and as the
    value it is: an integer goes out as a [TLONG] with that integer, a
    double as a [TDOUBLE] with that double, text as a [TSTRING] with that
    text.  None is passed over. *)
Theorem decoded_values_are_written (f : fptr) (key buf : string)
    (W : Type) (h : handler W) (w : W) :
  (C.strlen buf <= 70)%nat ->
  exists value,
    term_of value = decode_value buf
    /\ map attempt (updates (trace (exec h (cards_update f key (decode_value buf)) w)))
       = [(tag_of value, key, value)]
    /\ map attempt (updates (trace (exec h (file_update f key (decode_value buf)) w)))
       = [(tag_of value, key, value)].
Proof.
  intros Hlen.
  destruct (decode_value_shapes buf) as [(z & -> & Hz) | [(d & ->) | (t & -> & Ht)]].
  - exists (KLong z). split; [reflexivity|].
    unfold cards_update, file_update, log_update_failure. simpl. rewrite Hz.
    split; run h; reflexivity.
  - exists (KDouble d). split; [reflexivity|].
    unfold cards_update, file_update, log_update_failure. simpl.
    split; run h; reflexivity.
  - exists (KString (C.c_str t)). split.
    + unfold term_of, enif_make_string. rewrite c_str_c_str. reflexivity.
    + apply (text_update f key t W h w). lia.
Qed.

End Values.

(** ** The map of [read_header] *)

Section HeaderMap.
Context {P : Platform}.

#[local] Arguments decode_value : simpl never.
#[local] Arguments map_put : simpl never.
#[local] Arguments C.strcmp : simpl never.
#[local] Arguments C.strlen : simpl never.

Lemma decoded_text s : decoded (enif_make_string s).
Proof.
  unfold enif_make_string. simpl.
  induction (list_ascii_of_string (C.c_str s)) as [|c l IH]; constructor;
    [exists c; reflexivity | exact IH].
Qed.

Lemma decode_value_decoded buf : decoded (decode_value buf).
Proof.
  destruct (decode_value_shapes buf) as [(z & -> & _) | [(d & ->) | (t & -> & _)]];
    [exact I | exact I | apply decoded_text].
Qed.

Lemma map_put_keys name v m :
  omap key_name (map_put name v m)
  = if bool_decide (name ∈ omap key_name m) then omap key_name m
    else (omap key_name m ++ [name])%list.
Proof.
  induction m as [|[k old] m IH].
  - reflexivity.
  - unfold map_put; fold map_put.
    destruct k as [n| | | | | |];
      try (change (omap key_name ((?[k], old) :: map_put name v m))
             with (omap key_name (map_put name v m)); exact IH).
    destruct (String.eqb_spec n name) as [->|Hne].
    + change (omap key_name ((TAtom name, v) :: m)) with (name :: omap key_name m).
      change (omap key_name ((TAtom name, old) :: m)) with (name :: omap key_name m).
      rewrite bool_decide_eq_true_2 by (apply elem_of_cons; left; reflexivity). reflexivity.
    + change (omap key_name ((TAtom n, old) :: map_put name v m))
        with (n :: omap key_name (map_put name v m)).
      change (omap key_name ((TAtom n, old) :: m)) with (n :: omap key_name m).
      rewrite IH.
      destruct (bool_decide (name ∈ omap key_name m)) eqn:E.
      * apply bool_decide_eq_true_1 in E.
        rewrite bool_decide_eq_true_2 by (apply elem_of_cons; right; exact E). reflexivity.
      * apply bool_decide_eq_false_1 in E.
        rewrite bool_decide_eq_false_2
          by (intros H; apply elem_of_cons in H as [H|H]; [exact (Hne (eq_sym H)) | exact (E H)]).
        reflexivity.
Qed.

Lemma map_put_entries name v m :
  header_entry (TAtom name, v) -> Forall header_entry m ->
  Forall header_entry (map_put name v m).
Proof.
  intros Hnew. induction 1 as [|[k old] m Hk Hm IH].
  - constructor; [exact Hnew | constructor].
  - unfold map_put; fold map_put.
    destruct k as [n| | | | | |]; try (constructor; assumption).
    destruct (String.eqb_spec n name) as [->|Hne]; constructor; assumption.
Qed.

Lemma map_put_well_formed name v m :
  header_entry (TAtom name, v) -> well_formed_header m ->
  well_formed_header (map_put name v m).
Proof.
  intros Hnew [Hall Hnd]. split; [apply map_put_entries; assumption|].
  rewrite map_put_keys. destruct (bool_decide _) eqn:E; [exact Hnd|].
  apply bool_decide_eq_false_1 in E.
  apply NoDup_app. split; [exact Hnd|]. split.
  - intros x Hx Hin. apply list_elem_of_singleton in Hin. subst x.
    exact (E Hx).
  - apply NoDup_singleton.
Qed.

Lemma kept_key_entry key buf :
  nonzero (C.strcmp (C.c_str key) "COMMENT")
  && nonzero (C.strcmp (C.c_str key) "HISTORY")
  && (0 <? C.strlen (C.c_str key))%nat = true ->
  header_entry (TAtom (C.c_str key), decode_value buf).
Proof.
  intros H. apply andb_true_iff in H as [H Hlen].
  apply andb_true_iff in H as [Hc Hh].
  split; [|apply decode_value_decoded].
  exists (C.c_str key). split; [reflexivity|].
  repeat split; intros E; rewrite E in *; vm_compute in Hc, Hh, Hlen; discriminate.
Qed.

(** The loop keeps a map well formed. *)
Lemma read_records_well_formed f W (h : handler W) count :
  forall i st m w,
    well_formed_header m ->
    match result (exec h (read_records f count i st m) w) with
    | inl _ => True
    | inr (_, m') => well_formed_header m'
    end.
Proof.
  induction count as [|count IH]; intros i st m w Hm; [exact Hm|].
  simpl read_records.
  run h; try exact I;
    match goal with
    | |- context [exec h (read_records f count ?i ?s ?m) ?w] => apply IH
    end;
    first [ exact Hm | apply map_put_well_formed; [apply kept_key_entry; assumption | exact Hm] ].
Qed.

(** The loop reads the records it was asked for, in order. *)
Lemma read_records_in_order f W (h : handler W) count :
  forall i st m w r,
    result (exec h (read_records f count i st m) w) = inr r ->
    omap record_read (trace (exec h (read_records f count i st m) w))
    = record_numbers i count.
Proof.
  induction count as [|count IH]; intros i st m w r; [reflexivity|].
  simpl read_records.
  run h; intros E; try discriminate E;
    simpl; f_equal; exact (IH _ _ _ _ _ E).
Qed.

(** The loop asks for no record count. *)
Lemma read_records_count_nothing f W (h : handler W) count :
  forall i st m w,
    omap record_count (trace (exec h (read_records f count i st m) w)) = [].
Proof.
  induction count as [|count IH]; intros i st m w; [reflexivity|].
  simpl read_records.
  run h; try reflexivity; apply IH.
Qed.

(** X15: the map that [read_header] returns holds each keyword once, as
    an atom that is neither [COMMENT] nor [HISTORY] nor empty, with a value
    that is an integer, a double or a list of character codes, whatever
    the library put into the records. *)
Theorem read_header_map_is_well_formed argv m W (h : handler W) (w : W) :
  result (exec h (read_header argv) w) = Return (enif_make_tuple2 atom_ok (TMap m)) ->
  well_formed_header m.
Proof.
  unfold read_header.
  destruct (arg_binary argv 0) as [bin|]; [|discriminate].
  destruct (FILENAME_SIZE <=? binary_size bin); [discriminate|].
  run h; try discriminate.
  unfold mbind, prog_bind. rewrite exec_bind.
  match goal with |- context [exec h (read_records ?f ?n ?i ?s ?m) ?w] =>
    pose proof (read_records_well_formed f W h n i s m w) as Hwf;
    pose proof (read_records_disciplined f W h n i s m w) as (_ & _ & _ & Hr);
    set (loop := exec h (read_records f n i s m) w) in *
  end.
  simpl. destruct (result loop) as [early | [st hm]].
  - destruct Hr as (_ & s & -> & _). discriminate.
  - run h; try discriminate.
    intros [= <-]. apply Hwf. split; [constructor | constructor].
Qed.

(** X16: when [read_header] answers [ok], it has read every record from 1
    to the count that [fits_get_hdrpos] gave, each once and in order. *)
Theorem read_header_reads_every_record argv W (h : handler W) (w : W) :
  is_ok (result (exec h (read_header argv) w)) = true ->
  exists nkeys,
    omap record_count (trace (exec h (read_header argv) w)) = [nkeys]
    /\ omap record_read (trace (exec h (read_header argv) w))
       = record_numbers 1 (Z.to_nat nkeys).
Proof.
  unfold read_header.
  destruct (arg_binary argv 0) as [bin|]; [|discriminate].
  destruct (FILENAME_SIZE <=? binary_size bin); [discriminate|].
  run h; try discriminate.
  all: try (exfalso;
            match goal with
            | H : nonzero ?s = false, H' : (?s =? 0) = false |- _ =>
                unfold nonzero in H; rewrite H' in H; discriminate H
            end).
  unfold mbind, prog_bind. rewrite exec_bind.
  match goal with |- context [exec h (read_records ?f ?n ?i ?s ?m) ?w] =>
    pose proof (read_records_in_order f W h n i s m w) as Hord;
    pose proof (read_records_count_nothing f W h n i s m w) as Hcount;
    pose proof (read_records_disciplined f W h n i s m w) as (_ & _ & _ & Hr);
    set (loop := exec h (read_records f n i s m) w) in *
  end.
  simpl. destruct (result loop) as [early | [st hm]].
  - destruct Hr as (_ & s & -> & _). discriminate.
  - specialize (Hord _ eq_refl).
    run h; try discriminate; intros _;
      eexists; rewrite !omap_app, Hcount, Hord; simpl;
      (split; [reflexivity | rewrite app_nil_r; reflexivity]).
Qed.

End HeaderMap.

(** ** More on the reference library *)

Section RefMore.
Context {P : Platform} {RP : RefParams}.
Import Ref.

Lemma ref_fprintf w format args :
  ref_call _ (fprintf_stderr format args) w = (tt, with_stderr w (format, args)).
Proof. reflexivity. Qed.

Lemma ref_debug w data nbytes label :
  ref_call _ (debug_float_data data nbytes label) w
  = (tt, with_stderr w ("debug_float_data", [FStr label; FSize nbytes])).
Proof. reflexivity. Qed.

Lemma ref_remove w name :
  ref_call _ (remove name) w = (tt, with_disk w (delete name (disk w))).
Proof. reflexivity. Qed.

Lemma ref_errstatus w st :
  exists text hs,
    ref_call _ (fits_get_errstatus st) w
    = (text, World (disk w) (handles w) (next_handle w) (stderr w) hs).
Proof.
  unfold ref_call. destruct (header_call _ (fits_get_errstatus st) (headers w)) as [x hs].
  exists x, hs. reflexivity.
Qed.

(** Calls of the header stage leave the files and the handles alone. *)
Lemma ref_header_events_keep {R} (p : prog R) : forall w,
  forallb header_event (trace (exec ref_call p w)) = true ->
  disk (final (exec ref_call p w)) = disk w
  /\ handles (final (exec ref_call p w)) = handles w.
Proof.
  induction p as [r | X c k IH]; intros w; [split; reflexivity|].
  simpl. destruct (ref_call X c w) as [x w'] eqn:E. simpl.
  intros H. apply andb_true_iff in H as [Hc Hrest].
  destruct (IH x w' Hrest) as [Hd Hh]. rewrite Hd, Hh.
  destruct c; simpl in Hc; try discriminate Hc; unfold ref_call in E.
  - destruct (header_call _ _ (headers w)) as [y hs]. inversion E; subst. split; reflexivity.
  - destruct (header_call _ _ (headers w)) as [y hs]. inversion E; subst. split; reflexivity.
  - inversion E; subst. split; reflexivity.
Qed.

(** [read_image] on a file that holds a [FLOAT_IMG] image of two axes. *)
Lemma read_image_reads (w : world) (path data : string) (width height : Z) :
  binary_size path < FILENAME_SIZE -> C.c_str path = path -> path <> EmptyString ->
  disk w !! path = Some (Some (Image Fits.FLOAT_IMG [width; height] data)) ->
  0 <= width * height ->
  binary_size data = width * height * 4 ->
  binary_size data < C.SIZE_MODULUS ->
  result (exec ref_call (read_image [TBinary path]) w)
  = Return (enif_make_tuple2 atom_ok
              (enif_make_tuple3 (enif_make_long width) (enif_make_long height)
                 (TBinary data))).
Proof.
  intros Hfit Hstr Hne Hd Hwh Hlen Hsize.
  destruct (sizes_exact width height) as (Hexp & Hwrap & Hpix); [lia | lia |].
  assert (Hlen' : Z.of_nat (String.length data) = 4 * (width * height))
    by (unfold binary_size in Hlen; lia).
  unfold read_image, arg_binary. simpl.
  destruct (Z.leb_spec FILENAME_SIZE (binary_size path)); [lia|].
  rewrite Hstr. simpl.
  erewrite ref_open_file; [| assumption | exact Hd]. simpl.
  erewrite ref_get_img_param; [| simpl; apply lookup_insert_eq | simpl; exact Hd]. simpl.
  rewrite Hwrap, Hpix.
  rewrite ?ref_malloc. simpl.
  erewrite ref_read_pix;
    [| simpl; apply lookup_insert_eq | simpl; exact Hd | lia | exact Hlen'].
  simpl.
  erewrite ref_close; [| simpl; apply lookup_insert_eq]. simpl.
  rewrite ?ref_alloc_binary. simpl.
  unfold string_take.
  replace (Z.to_nat (width * height * 4)) with (String.length data) by lia.
  rewrite substring_all. reflexivity.
Qed.

(** The end of [write_fits_file] on the reference library, from the
    header stage on. *)
Lemma ref_header_stage (w : world) f entry (stage : prog unit) (name : string) :
  handles w !! f = Some entry ->
  (forall w', forallb header_event (trace (exec ref_call stage w')) = true) ->
  let o := exec ref_call
             (bind stage (fun _ =>
              bind (call (fits_close_file f 0)) (fun status =>
              if nonzero status then
                bind (report "Error closing file: %s (status=%d)\n" status)
                     (fun _ => Ret (error_status status))
              else
                bind (call (fprintf_stderr "Successfully wrote FITS file: %s\n"
                              [FStr name]))
                     (fun _ => Ret (Return atom_ok))))) w in
  result o = Return atom_ok /\ disk (final o) = disk w.
Proof.
  intros Hh Hev. rewrite exec_bind.
  destruct (ref_header_events_keep stage w (Hev w)) as [Hd Hhd].
  set (first := exec ref_call stage w) in *. clearbody first.
  simpl. erewrite ref_close; [| rewrite Hhd; exact Hh]. simpl.
  rewrite ?ref_fprintf. simpl. split; [reflexivity | exact Hd].
Qed.

Lemma header_stage_events f (header : option (list (term * term))) W (h : handler W) w :
  forallb header_event
    (trace (exec h (match header with
                    | Some header_map =>
                        bind (call (fprintf_stderr "Writing header cards\n" []))
                             (fun _ => file_loop f header_map)
                    | None => Ret tt
                    end) w)) = true.
Proof.
  destruct header as [m|]; [|reflexivity].
  run h. apply file_loop_header_events.
Qed.

(** [write_fits_file] on a path that fits, whatever is on the disk. *)
Lemma write_fits_file_writes (w : world) (path data : string) (width height : Z)
    (tail : list term) :
  binary_size path < FILENAME_SIZE -> C.c_str path = path -> path <> EmptyString ->
  0 < width -> 0 < height ->
  binary_size data = width * height * 4 ->
  binary_size data < C.SIZE_MODULUS ->
  (tail = [] \/ tail = [TInt Fits.FLOAT_IMG]
   \/ exists header_map, tail = [TInt Fits.FLOAT_IMG; TMap header_map]) ->
  let o := exec ref_call
             (write_fits_file
                (TBinary path :: TBinary data :: TInt width :: TInt height :: tail)) w in
  result o = Return atom_ok
  /\ disk (final o) !! path = Some (Some (Image Fits.FLOAT_IMG [width; height] data)).
Proof.
  intros Hfit Hstr Hne Hw Hh Hlen Hsize Htail.
  assert (Hwh : 0 < width * height) by nia.
  assert (Hw' : 0 <= width < 2 ^ 62) by (unfold C.SIZE_MODULUS in Hsize; nia).
  assert (Hh' : 0 <= height < 2 ^ 62) by (unfold C.SIZE_MODULUS in Hsize; nia).
  destruct (sizes_exact width height) as (Hexp & Hwrap & Hpix); [lia | lia |].
  assert (Hlen' : Z.of_nat (String.length data) = 4 * (width * height))
    by (unfold binary_size in Hlen; lia).
  assert (Hargs : exists header,
            (length (TBinary path :: TBinary data :: TInt width :: TInt height :: tail)
               <? 4)%nat
            || (6 <? length (TBinary path :: TBinary data :: TInt width :: TInt height
                               :: tail))%nat = false
            /\ (if (5 <=? length (TBinary path :: TBinary data :: TInt width
                                    :: TInt height :: tail))%nat
                then arg_int (TBinary path :: TBinary data :: TInt width :: TInt height
                                :: tail) 4
                else Some Fits.FLOAT_IMG) = Some Fits.FLOAT_IMG
            /\ header_argument (TBinary path :: TBinary data :: TInt width :: TInt height
                                  :: tail) = Some header).
  { destruct Htail as [-> | [-> | [m ->]]];
      [exists None | exists None | exists (Some m)]; repeat split; reflexivity. }
  destruct Hargs as (header & Hargc & Hbitpix & Hheader).
  unfold write_fits_file. rewrite Hargc, Hbitpix, Hheader.
  unfold arg_binary, arg_long, enif_get_long. simpl.
  destruct (Z.leb_spec FILENAME_SIZE (binary_size path)); [lia|].
  rewrite !in_long_small by assumption.
  rewrite Hexp, Hlen, Z.eqb_refl, Hstr, Hwrap. simpl.
  rewrite ?ref_debug, ?ref_fprintf, ?ref_malloc, ?ref_remove. simpl.
  rewrite ref_create_file; [| assumption | simpl; apply lookup_delete_eq]. simpl.
  erewrite ref_create_img;
    [| simpl; apply lookup_insert_eq | reflexivity | lia | lia]. simpl.
  rewrite ?ref_fprintf. simpl.
  erewrite ref_write_pix;
    [| simpl; apply lookup_insert_eq | simpl; apply lookup_insert_eq | lia | exact Hlen'].
  simpl.
  match goal with
  | |- result (exec ref_call _ ?W) = _ /\ _ =>
      pose proof (ref_header_stage W (next_handle w) (path, Fits.READWRITE)
                    (match header with
                     | Some header_map =>
                         bind (call (fprintf_stderr "Writing header cards\n" []))
                              (fun _ => file_loop (next_handle w) header_map)
                     | None => Ret tt
                     end) path) as Hstage
  end.
  destruct Hstage as [Hres Hdisk];
    [ simpl; apply lookup_insert_eq
    | intros w'; apply header_stage_events |].
  split; [exact Hres|].
  etransitivity; [exact (f_equal (fun d => d !! path) Hdisk)|].
  simpl. rewrite lookup_insert_eq, overwrite_fresh. reflexivity.
Qed.

Lemma plain_char_not_nul c : plain_char c = true -> c <> C.NUL.
Proof. intros H ->. vm_compute in H. discriminate H. Qed.

Lemma plain_chars_nul_free s :
  forallb plain_char (list_ascii_of_string s) = true -> nul_free s.
Proof.
  induction s as [|c s IH]; [constructor|].
  simpl. intros H. apply andb_true_iff in H as [Hc Hs].
  constructor; [apply plain_char_not_nul, Hc | apply IH, Hs].
Qed.

(** A plain name is a C string as it stands, and not the empty one. *)
Lemma plain_name_literal name :
  plain_name name = true -> C.c_str name = name /\ name <> EmptyString.
Proof.
  unfold plain_name. intros H.
  apply andb_true_iff in H as [H _]. apply andb_true_iff in H as [H _].
  apply andb_true_iff in H as [Hchars Hne].
  split; [apply c_str_id, plain_chars_nul_free, Hchars|].
  intros ->. discriminate Hne.
Qed.

(** X17: on the reference library [write_fits_file] writes a positive
    [width] by [height] image of [FLOAT_IMG] samples under a plain name
    whatever was under it before, and [read_image] then gives back the
    dimensions and the very bytes: for a call of four arguments, of five
    with -32, and of six with a header map none of whose entries is
    applied.  ([write_image] asks for a path that names no file.) *)
Theorem write_fits_file_replaces_and_reads_back (w : world) (path data : string)
    (width height : Z) (tail : list term) :
  binary_size path < FILENAME_SIZE -> plain_name path = true ->
  0 < width -> 0 < height ->
  binary_size data = width * height * 4 ->
  binary_size data < C.SIZE_MODULUS ->
  (tail = [] \/ tail = [TInt Fits.FLOAT_IMG]
   \/ exists header_map,
        tail = [TInt Fits.FLOAT_IMG; TMap header_map] /\ omap planned header_map = []) ->
  let o := exec ref_call
             (write_fits_file
                (TBinary path :: TBinary data :: TInt width :: TInt height :: tail)) w in
  result o = Return atom_ok
  /\ result (exec ref_call (read_image [TBinary path]) (final o))
     = Return (enif_make_tuple2 atom_ok
                 (enif_make_tuple3 (enif_make_long width) (enif_make_long height)
                    (TBinary data))).
Proof.
  intros Hfit Hplain Hw Hh Hlen Hsize Htail.
  destruct (plain_name_literal path Hplain) as [Hstr Hne].
  destruct (write_fits_file_writes w path data width height tail) as [Hres Hdisk];
    try assumption.
  { destruct Htail as [H | [H | (m & H & _)]]; [left | right; left | right; right; exists m];
      exact H. }
  split; [exact Hres|].
  apply read_image_reads; try assumption. nia.
Qed.

Lemma ref_create_img_refused w f name bitpix width height :
  handles w !! f = Some (name, Fits.READWRITE) ->
  valid_bitpix bitpix = true ->
  width < 0 \/ height < 0 ->
  ref_call _ (fits_create_img f bitpix 2 [width; height] 0) w = (BAD_NAXES, w).
Proof.
  intros Hh Hb Hneg. unfold ref_call. simpl. rewrite Hh, Hb. simpl.
  destruct (Z.ltb_spec width 0); [reflexivity|].
  destruct (Z.ltb_spec height 0); [reflexivity | lia].
Qed.

(** X18: on the reference library, a negative width or height that gets
    past the size check costs the file: the library refuses the image with
    [BAD_NAXES] after the file was created, and both writers return that
    status and leave the empty file behind; [write_fits_file] has by then
    removed what was under the path. *)
Theorem negative_dimensions_leave_an_empty_file (w : world) (path data : string)
    (width height : Z) :
  binary_size path < FILENAME_SIZE -> C.c_str path = path -> path <> EmptyString ->
  C.in_long width = true -> C.in_long height = true ->
  width < 0 \/ height < 0 ->
  expected_bytes width height = binary_size data ->
  let argv := [TBinary path; TBinary data; TInt width; TInt height] in
  (result (exec ref_call (write_fits_file argv) w) = error_status BAD_NAXES
   /\ disk (final (exec ref_call (write_fits_file argv) w)) !! path = Some None)
  /\ (disk w !! path = None ->
      result (exec ref_call (write_image argv) w) = error_status BAD_NAXES
      /\ disk (final (exec ref_call (write_image argv) w)) !! path = Some None).
Proof.
  intros Hfit Hstr Hne Hw Hh Hneg Hexp argv. subst argv.
  split; [|intros Hfree].
  - unfold write_fits_file, arg_binary, arg_long, enif_get_long. simpl.
    destruct (Z.leb_spec FILENAME_SIZE (binary_size path)); [lia|].
    rewrite Hw, Hh, Hexp, Z.eqb_refl, Hstr. simpl.
    rewrite ?ref_debug, ?ref_fprintf, ?ref_malloc, ?ref_remove. simpl.
    rewrite ref_create_file; [| assumption | simpl; apply lookup_delete_eq]. simpl.
    erewrite ref_create_img_refused;
      [| simpl; apply lookup_insert_eq | reflexivity | assumption].
    change (nonzero BAD_NAXES) with true. simpl.
    match goal with
    | |- context [ref_call _ (fits_get_errstatus ?st) ?W] =>
        destruct (ref_errstatus W st) as (text & hs & ->)
    end.
    simpl. rewrite ?ref_fprintf. simpl.
    erewrite ref_close; [| simpl; apply lookup_insert_eq]. simpl.
    split; [reflexivity | apply lookup_insert_eq].
  - unfold write_image, arg_binary, arg_long, enif_get_long. simpl.
    destruct (Z.leb_spec FILENAME_SIZE (binary_size path)); [lia|].
    rewrite Hw, Hh, Hexp, Z.eqb_refl, Hstr. simpl.
    rewrite ref_create_file by assumption. simpl.
    erewrite ref_create_img_refused;
      [| simpl; apply lookup_insert_eq | reflexivity | assumption].
    change (nonzero BAD_NAXES) with true. simpl.
    erewrite ref_close; [| simpl; apply lookup_insert_eq]. simpl.
    split; [reflexivity | apply lookup_insert_eq].
Qed.

End RefMore.

(** ** [write_header_to_fits] *)

Section LiteralCardFacts.
Context {P : Platform} {W : Type}.
Variable fits_write_record : fptr -> string -> Z -> W -> Z * W.

Lemma get_string_of_card s :
  enif_get_string (enif_make_string s) CARD_SIZE
  = if (String.length (C.c_str s) <=? 80)%nat
    then (Z.of_nat (String.length (C.c_str s)) + 1, C.c_str s)
    else (-81, String.substring 0 80 (C.c_str s)).
Proof.
  unfold enif_get_string, enif_make_string, CARD_SIZE.
  change (map (fun c => TInt (C.code c)) (list_ascii_of_string (C.c_str s)))
    with (codes (C.c_str s)).
  rewrite get_string_loop_codes by lia. simpl Nat.add.
  destruct (Nat.ltb_spec (String.length (C.c_str s)) 81),
           (Nat.leb_spec (String.length (C.c_str s)) 80); try lia; reflexivity.
Qed.

Lemma substring_whole s n :
  (String.length s <= n)%nat -> String.substring 0 n s = s.
Proof.
  revert n. induction s as [|c s IH]; intros n Hn; [destruct n; reflexivity|].
  destruct n as [|n]; [simpl in Hn; lia|].
  simpl. rewrite IH by (simpl in Hn; lia). reflexivity.
Qed.

(** X19: a card of any length is written: [write_header_to_fits] hands
    the first 80 characters of a character list to [fits_write_record] and
    goes on, where the header writers of the NIFs pass over a value that
    does not fit its buffer. *)
Theorem long_card_is_cut_not_dropped (f : fptr) (s : string) (rest : list term)
    (status : Z) (w : W) :
  write_header_to_fits fits_write_record f (TList (enif_make_string s :: rest)) status w
  = let '(status', w') :=
      fits_write_record f (String.substring 0 80 (C.c_str s)) status w in
    if nonzero status' then (0, status', w')
    else write_header_to_fits fits_write_record f (TList rest) status' w'.
Proof.
  unfold write_header_to_fits. cbn [write_cards].
  rewrite get_string_of_card.
  destruct (Nat.leb_spec (String.length (C.c_str s)) 80) as [Hfit|Hlong].
  - rewrite substring_whole by exact Hfit.
    replace (nonzero (Z.of_nat (String.length (C.c_str s)) + 1)) with true
      by (symmetry; apply negb_true_iff, Z.eqb_neq; lia).
    rewrite c_str_c_str. reflexivity.
  - change (nonzero (-81)) with true. cbv iota.
    rewrite c_str_id by (apply nul_free_substring, c_str_nul_free).
    reflexivity.
Qed.

Lemma write_cards_done (f : fptr) (cells : list term) : forall status w status' w',
  write_cards fits_write_record f cells status w = (1, status', w') ->
  Forall (fun cell => fst (enif_get_string cell CARD_SIZE) <> 0) cells
  /\ (cells = [] /\ status' = status /\ w' = w \/ cells <> [] /\ status' = 0).
Proof.
  induction cells as [|cell cells IH]; intros status w status' w' E.
  - inversion E; subst. split; [constructor | left; auto].
  - cbn [write_cards] in E.
    destruct (enif_get_string cell CARD_SIZE) as [n card] eqn:Hn.
    destruct (nonzero n) eqn:Hnz; [|discriminate E].
    destruct (fits_write_record f (C.c_str card) status w) as [st1 w1].
    destruct (nonzero st1) eqn:Hst; [discriminate E|].
    apply negb_false_iff, Z.eqb_eq in Hst. subst st1.
    destruct (IH _ _ _ _ E) as [Hall Hend].
    split.
    + constructor; [|exact Hall].
      rewrite Hn. simpl. apply negb_true_iff, Z.eqb_neq in Hnz. exact Hnz.
    + right. split; [discriminate|].
      destruct Hend as [(_ & -> & _) | (_ & ->)]; reflexivity.
Qed.

(** X20: [write_header_to_fits] returns 1 only for a list each of whose
    cells [enif_get_string] could read, and then the status is 0 after at
    least one card; for the empty list it returns 1 with the status and the
    file as they were, an error status on entry included. *)
Theorem write_header_to_fits_success (f : fptr) (headers : term)
    (status : Z) (w : W) (status' : Z) (w' : W) :
  write_header_to_fits fits_write_record f headers status w = (1, status', w') ->
  exists cells,
    headers = TList cells
    /\ Forall (fun cell => fst (enif_get_string cell CARD_SIZE) <> 0) cells
    /\ (cells = [] /\ status' = status /\ w' = w \/ cells <> [] /\ status' = 0).
Proof.
  unfold write_header_to_fits. intros E.
  destruct headers as [| | | |cells| |]; try discriminate E.
  exists cells. split; [reflexivity|]. exact (write_cards_done f cells _ _ _ _ E).
Qed.

End LiteralCardFacts.

(** ** What a NIF leaves alone *)

Section Restraint.
Context {P : Platform}.

Lemma read_records_mutate_nothing f W (h : handler W) count :
  forall i st m w,
    existsb mutates (trace (exec h (read_records f count i st m) w)) = false.
Proof.
  induction count as [|count IH]; intros i st m w; [reflexivity|].
  simpl read_records.
  run h; try reflexivity; apply IH.
Qed.

(** X21: the three readers, [open_fits], [read_image] and [read_header],
    open the file read-only and make no call that changes a file: none
    creates, writes pixels, updates a key or removes. *)
Theorem readers_change_nothing argv W (h : handler W) (w : W) :
  existsb mutates (trace (exec h (open_fits argv) w)) = false
  /\ existsb mutates (trace (exec h (read_image argv) w)) = false
  /\ existsb mutates (trace (exec h (read_header argv) w)) = false.
Proof.
  split; [|split].
  - unfold open_fits.
    destruct (arg_binary argv 0) as [bin|]; [|reflexivity].
    destruct (FILENAME_SIZE <=? binary_size bin); [reflexivity|].
    run h; reflexivity.
  - unfold read_image.
    destruct (arg_binary argv 0) as [bin|]; [|reflexivity].
    destruct (FILENAME_SIZE <=? binary_size bin); [reflexivity|].
    run h; reflexivity.
  - unfold read_header.
    destruct (arg_binary argv 0) as [bin|]; [|reflexivity].
    destruct (FILENAME_SIZE <=? binary_size bin); [reflexivity|].
    run h; try reflexivity.
    unfold mbind, prog_bind. rewrite exec_bind. simpl.
    rewrite existsb_app, read_records_mutate_nothing. simpl.
    destruct (result (exec h (read_records _ _ _ _ _) _)) as [early | [st hm]];
      run h; reflexivity.
Qed.

Lemma header_events_touch_no_data (tr : list event) :
  forallb header_event tr = true -> existsb touches_data tr = false.
Proof.
  induction tr as [|e tr IH]; [reflexivity|].
  simpl. intros H. apply andb_true_iff in H as [He Htr].
  rewrite (IH Htr). destruct e as [X c x]; destruct c; simpl in *; congruence.
Qed.

(** X22: [write_header_cards] works on the header of an existing file
    only: it creates no file and no image, removes nothing and moves no
    pixel. *)
Theorem write_header_cards_touches_no_data argv W (h : handler W) (w : W) :
  existsb touches_data (trace (exec h (write_header_cards argv) w)) = false.
Proof.
  unfold write_header_cards.
  destruct (arg_binary argv 0) as [name|]; [|reflexivity].
  destruct (FILENAME_SIZE <=? binary_size name); [reflexivity|].
  destruct (nth_error argv 1) as [[]|]; try reflexivity.
  run h; try reflexivity.
  unfold mbind, prog_bind. rewrite exec_bind. simpl.
  rewrite existsb_app.
  rewrite (header_events_touch_no_data _ (cards_loop_header_events _ _ _ W h _)).
  run h; reflexivity.
Qed.

(** X23: a call without [bitpix] is the call with [FLOAT_IMG] (-32): the
    programs of [write_image] and of [write_fits_file] on four arguments
    are those on five with -32 as the fifth. *)
Theorem default_bitpix_is_float (path data width height : term) :
  write_image [path; data; width; height]
  = write_image [path; data; width; height; TInt Fits.FLOAT_IMG]
  /\ write_fits_file [path; data; width; height]
     = write_fits_file [path; data; width; height; TInt Fits.FLOAT_IMG].
Proof. split; reflexivity. Qed.

(** X24: the header loop of [write_header_cards] and the one of
    [write_fits_file] attempt the same updates in the same order on the
    same map, whatever the library answers to either. *)
Theorem writers_agree_on_header (f : fptr) (pairs : list (term * term))
    (W1 W2 : Type) (h1 : handler W1) (h2 : handler W2) (w1 : W1) (w2 : W2) :
  map attempt (updates (trace (exec h1 (cards_loop f 0 pairs) w1)))
  = map attempt (updates (trace (exec h2 (file_loop f pairs) w2))).
Proof.
  rewrite (proj1 (cards_loop_isolates f pairs W1 h1 w1)).
  rewrite (proj1 (file_loop_isolates f pairs W2 h2 w2)).
  reflexivity.
Qed.

End Restraint.

(** ** The properties above at work *)

Lemma write_image_closes_its_handle :
  let o := exec Ref.ref_call
             (write_image (P := bits_platform)
                [TBinary "m31.fits"; TBinary "abcdefgh"; TInt 2; TInt 1])
             empty_world in
  omap opened (trace o) = omap closed (trace o).
Proof.
  apply (handles_are_closed (P := bits_platform) "write_image" 4%nat write_image
           [TBinary "m31.fits"; TBinary "abcdefgh"; TInt 2; TInt 1]
           Ref.world Ref.ref_call empty_world).
  simpl. do 4 right. left. reflexivity.
Defined.

Lemma refused_creation_is_reported :
  let o := exec Ref.ref_call
             (write_image (P := bits_platform)
                [TBinary "old.fits"; TBinary "wxyz"; TInt 1; TInt 1])
             (world_with "old.fits" (Ref.Image Fits.FLOAT_IMG [1; 1] "abcd")) in
  last (omap status_of (trace o)) = Some Ref.FILE_NOT_CREATED.
Proof.
  apply (error_code_is_last_status (P := bits_platform) "write_image" 4%nat write_image
           [TBinary "old.fits"; TBinary "wxyz"; TInt 1; TInt 1]
           Ref.world Ref.ref_call
           (world_with "old.fits" (Ref.Image Fits.FLOAT_IMG [1; 1] "abcd"))
           Ref.FILE_NOT_CREATED).
  - simpl. do 4 right. left. reflexivity.
  - vm_compute. reflexivity.
Defined.

Lemma read_image_of_a_number_is_badarg :
  forallb is_stderr
    (trace (exec (refusing "GAIN") (read_image (P := bits_platform) [TInt 5]) tt)) = true.
Proof.
  apply (badarg_before_file_access (P := bits_platform) "read_image" 1%nat read_image
           [TInt 5] unit (refusing "GAIN") tt).
  - simpl. do 2 right. left. reflexivity.
  - discriminate.
  - reflexivity.
Defined.

Lemma mismatch_makes_no_call :
  let o := exec Ref.ref_call
             (write_fits_file (P := bits_platform)
                [TBinary "m31.fits"; TBinary "abc"; TInt 1; TInt 1])
             (world_with "m31.fits" (Ref.Image Fits.FLOAT_IMG [1; 1] "abcd")) in
  omap status_of (trace o) = [] /\ omap removes (trace o) = [].
Proof.
  apply (atom_errors_before_library (P := bits_platform) "write_fits_file" 4%nat
           write_fits_file
           [TBinary "m31.fits"; TBinary "abc"; TInt 1; TInt 1]
           Ref.world Ref.ref_call
           (world_with "m31.fits" (Ref.Image Fits.FLOAT_IMG [1; 1] "abcd"))
           "dimensions_mismatch").
  - simpl. do 7 right. left. reflexivity.
  - vm_compute. reflexivity.
Defined.

Lemma header_writer_names_fit :
  forallb name_fits
    (trace (exec (refusing "GAIN")
              (write_header_cards (P := bits_platform)
                 [TBinary "m31.fits"; TMap five_entries]) tt)) = true.
Proof.
  apply (names_fit_the_buffer (P := bits_platform) "write_header_cards" 2%nat
           write_header_cards [TBinary "m31.fits"; TMap five_entries]
           unit (refusing "GAIN") tt).
  simpl. do 6 right. left. reflexivity.
Defined.

Lemma short_image_is_written_as_float :
  forallb float_transfer
    (trace (exec Ref.ref_call
              (write_image (P := bits_platform)
                 [TBinary "m31.fits"; TBinary "abcdefgh"; TInt 2; TInt 1; TInt 16])
              empty_world)) = true.
Proof.
  apply (pixels_move_as_float (P := bits_platform) "write_image" 5%nat write_image
           [TBinary "m31.fits"; TBinary "abcdefgh"; TInt 2; TInt 1; TInt 16]
           Ref.world Ref.ref_call empty_world).
  simpl. do 5 right. left. reflexivity.
Defined.

Lemma written_image_was_closed_cleanly :
  let o := exec Ref.ref_call
             (write_image (P := bits_platform)
                [TBinary "m31.fits"; TBinary "abcdefgh"; TInt 2; TInt 1])
             empty_world in
  last (omap status_of (trace o)) = Some 0.
Proof.
  apply (ok_after_clean_close (P := bits_platform) "write_image" 4%nat write_image
           [TBinary "m31.fits"; TBinary "abcdefgh"; TInt 2; TInt 1]
           Ref.world Ref.ref_call empty_world).
  - simpl. do 4 right. left. reflexivity.
  - discriminate.
  - vm_compute. reflexivity.
Defined.

Lemma open_fits_with_failing_close :
  let o := exec failing_close (open_fits (P := bits_platform) [TBinary "m31.fits"]) tt in
  omap status_of (trace o) = [0; 110] /\ result o = Return atom_ok.
Proof.
  split; [reflexivity|].
  apply (open_fits_ignores_close_status (P := bits_platform)
           [TBinary "m31.fits"] unit failing_close tt).
  vm_compute. discriminate.
Defined.

Lemma failing_malloc_seen_by_one :
  result (exec failing_malloc
            (write_fits_file (P := bits_platform)
               [TBinary "m31.fits"; TBinary "abcd"; TInt 1; TInt 1]) tt)
  = error_atom "memory_allocation_failure"
  /\ existsb reads_pixels
       (trace (exec failing_malloc (read_image (P := bits_platform) [TBinary "m31.fits"]) tt))
     = true.
Proof.
  split.
  - apply (proj1 (malloc_checked_by_one_not_the_other (P := bits_platform)
                    [TBinary "m31.fits"; TBinary "abcd"; TInt 1; TInt 1]
                    unit failing_malloc tt)).
    vm_compute. do 4 right. left. reflexivity.
  - apply (proj2 (malloc_checked_by_one_not_the_other (P := bits_platform)
                    [TBinary "m31.fits"] unit failing_malloc tt)).
    vm_compute. do 2 right. left. reflexivity.
Defined.

Lemma quoted_number_is_text :
  decode_value (P := bits_platform) "'1.5'" = enif_make_string "1.5".
Proof.
  apply (quoted_value_is_its_text (P := bits_platform) "1.5").
  repeat constructor; discriminate.
Defined.

Lemma two_to_the_63_saturates :
  decode_value (P := bits_platform) "9223372036854775808" = TInt C.LONG_MAX
  /\ decode_value (P := bits_platform) "-9223372036854775808" = TInt C.LONG_MIN.
Proof.
  apply (numeral_out_of_range_saturates (P := bits_platform) "9223372036854775808").
  - discriminate.
  - vm_compute. reflexivity.
  - vm_compute. discriminate.
Defined.

Lemma exposure_read_is_written :
  exists value,
    term_of value = decode_value (P := bits_platform) "120"
    /\ map attempt (updates (trace (exec (refusing "GAIN")
                                      (cards_update (P := bits_platform) O "EXPTIME"
                                         (decode_value "120")) tt)))
       = [(tag_of value, "EXPTIME", value)]
    /\ map attempt (updates (trace (exec (refusing "GAIN")
                                      (file_update (P := bits_platform) O "EXPTIME"
                                         (decode_value "120")) tt)))
       = [(tag_of value, "EXPTIME", value)].
Proof.
  apply (decoded_values_are_written (P := bits_platform) O "EXPTIME" "120"
           unit (refusing "GAIN") tt).
  vm_compute. lia.
Defined.

Lemma two_records_one_entry :
  well_formed_header (P := bits_platform) [(TAtom "EXPTIME", TInt 120)].
Proof.
  apply (read_header_map_is_well_formed (P := bits_platform) [TBinary "m31.fits"]
           [(TAtom "EXPTIME", TInt 120)] unit two_records tt).
  vm_compute. reflexivity.
Defined.

Lemma two_records_both_read :
  exists nkeys,
    omap record_count
      (trace (exec two_records (read_header (P := bits_platform) [TBinary "m31.fits"]) tt))
    = [nkeys]
    /\ omap record_read
         (trace (exec two_records (read_header (P := bits_platform) [TBinary "m31.fits"]) tt))
       = record_numbers 1 (Z.to_nat nkeys).
Proof.
  apply (read_header_reads_every_record (P := bits_platform) [TBinary "m31.fits"]
           unit two_records tt).
  vm_compute. reflexivity.
Defined.

Lemma old_file_is_replaced_and_read_back :
  let o := exec Ref.ref_call
             (write_fits_file (P := bits_platform)
                [TBinary "old.fits"; TBinary "wxyz"; TInt 1; TInt 1;
                 TInt Fits.FLOAT_IMG; TMap [(TAtom "NAXIS1", TInt 999)]])
             (world_with "old.fits" (Ref.Image Fits.FLOAT_IMG [1; 1] "abcd")) in
  result o = Return atom_ok
  /\ result (exec Ref.ref_call (read_image [TBinary "old.fits"]) (final o))
     = Return (enif_make_tuple2 atom_ok
                 (enif_make_tuple3 (enif_make_long 1) (enif_make_long 1)
                    (TBinary "wxyz"))).
Proof.
  apply (write_fits_file_replaces_and_reads_back (P := bits_platform)
           (world_with "old.fits" (Ref.Image Fits.FLOAT_IMG [1; 1] "abcd"))
           "old.fits" "wxyz" 1 1 [TInt Fits.FLOAT_IMG; TMap [(TAtom "NAXIS1", TInt 999)]]).
  - vm_compute. reflexivity.
  - vm_compute. reflexivity.
  - lia.
  - lia.
  - reflexivity.
  - vm_compute. reflexivity.
  - right. right. exists [(TAtom "NAXIS1", TInt 999)]. split; reflexivity.
Defined.

Lemma minus_one_by_minus_one_costs_the_file :
  let w := world_with "old.fits" (Ref.Image Fits.FLOAT_IMG [1; 1] "abcd") in
  let argv := [TBinary "old.fits"; TBinary "wxyz"; TInt (-1); TInt (-1)] in
  result (exec Ref.ref_call (write_fits_file (P := bits_platform) argv) w)
  = error_status Ref.BAD_NAXES
  /\ Ref.disk (final (exec Ref.ref_call (write_fits_file (P := bits_platform) argv) w))
       !! "old.fits" = Some None.
Proof.
  apply (negative_dimensions_leave_an_empty_file (P := bits_platform)
           (world_with "old.fits" (Ref.Image Fits.FLOAT_IMG [1; 1] "abcd"))
           "old.fits" "wxyz" (-1) (-1)).
  - vm_compute. reflexivity.
  - reflexivity.
  - discriminate.
  - reflexivity.
  - reflexivity.
  - left. lia.
  - vm_compute. reflexivity.
Defined.

Lemma one_card_is_written :
  exists cells,
    TList [enif_make_string (P := bits_platform) "END"] = TList cells
    /\ Forall (fun cell => fst (enif_get_string cell CARD_SIZE) <> 0) cells
    /\ (cells = [] /\ 0 = 0 /\ ["END"] = ([] : list string) \/ cells <> [] /\ 0 = 0).
Proof.
  apply (write_header_to_fits_success (P := bits_platform)
           (fun _ card status (w : list string) => (status, (w ++ [card])%list))
           O (TList [enif_make_string "END"]) 0 [] 0 ["END"]).
  vm_compute. reflexivity.
Defined.

(** * Where the code goes its own way *)

(** ** Dimensions that are not positive *)

Section Dimensions.
Context {P : Platform}.








End Dimensions.


(** ** Header entries one by one *)

Section Independence.
Context {P : Platform}.







End Independence.



(** ** A path that holds a file *)

Section Occupied.
Context {P : Platform} {RP : RefParams}.
Import Ref.

Lemma ref_create_file_refused w name entry :
  disk w !! name = Some entry ->
  ref_call _ (fits_create_file name 0) w = ((O, FILE_NOT_CREATED), w).
Proof.
  intros Hd. unfold ref_call. simpl.
  destruct (String.eqb name EmptyString); [reflexivity|].
  rewrite Hd. reflexivity.
Qed.

(** C1 fails on the code for a path that holds a file.  [write_image] has
    no [remove]: on the reference library, where [fits_create_file] does
    not write over a file, the call answers [{error, 105}] and leaves the
    disk as it was, and [read_image] then answers [ok] with the width, the
    height and the pixels of the old image, not those just handed in. *)
Theorem roundtrip_breaks_on_existing_file (w : world) (path data old : string)
    (width height old_width old_height : Z) :
  binary_size path < FILENAME_SIZE -> plain_name path = true ->
  0 < width -> 0 < height ->
  binary_size data = width * height * 4 -> binary_size data < C.SIZE_MODULUS ->
  disk w !! path = Some (Some (Image Fits.FLOAT_IMG [old_width; old_height] old)) ->
  0 <= old_width * old_height ->
  binary_size old = old_width * old_height * 4 -> binary_size old < C.SIZE_MODULUS ->
  let o := exec ref_call
             (write_image [TBinary path; TBinary data; TInt width; TInt height]) w in
  result o = error_status FILE_NOT_CREATED
  /\ final o = w
  /\ result (exec ref_call (read_image [TBinary path]) (final o))
     = Return (enif_make_tuple2 atom_ok
                 (enif_make_tuple3 (enif_make_long old_width) (enif_make_long old_height)
                    (TBinary old))).
Proof.
  intros Hfit Hplain Hw Hh Hlen Hsize Hd Hold Holdlen Holdsize.
  destruct (plain_name_literal path Hplain) as [Hstr Hne].
  assert (Hwh : 0 < width * height) by nia.
  assert (Hw' : 0 <= width < 2 ^ 62) by (unfold C.SIZE_MODULUS in Hsize; nia).
  assert (Hh' : 0 <= height < 2 ^ 62) by (unfold C.SIZE_MODULUS in Hsize; nia).
  destruct (sizes_exact width height) as (Hexp & _ & _); [lia | lia |].
  assert (Hrun : exec ref_call
                   (write_image [TBinary path; TBinary data; TInt width; TInt height]) w
                 = Outcome (error_status FILE_NOT_CREATED) w
                     [Ev (fits_create_file path 0) (O, FILE_NOT_CREATED)]).
  { unfold write_image, arg_binary, arg_long, enif_get_long. simpl.
    destruct (Z.leb_spec FILENAME_SIZE (binary_size path)); [lia|].
    rewrite !in_long_small by assumption.
    rewrite Hexp, Hlen, Z.eqb_refl, Hstr. simpl.
    rewrite (ref_create_file_refused w path _ Hd). reflexivity. }
  simpl. rewrite Hrun. simpl.
  split; [reflexivity|]. split; [reflexivity|].
  apply read_image_reads; assumption.
Qed.

End Occupied.

Lemma old_pixels_come_back :
  let w := world_with "old.fits" (Ref.Image Fits.FLOAT_IMG [1; 1] "abcd") in
  let o := exec Ref.ref_call
             (write_image (P := bits_platform)
                [TBinary "old.fits"; TBinary "wxyz"; TInt 1; TInt 1]) w in
  result o = error_status Ref.FILE_NOT_CREATED
  /\ final o = w
  /\ result (exec Ref.ref_call (read_image [TBinary "old.fits"]) (final o))
     = Return (enif_make_tuple2 atom_ok
                 (enif_make_tuple3 (enif_make_long 1) (enif_make_long 1)
                    (TBinary "abcd"))).
Proof.
  apply (roundtrip_breaks_on_existing_file (P := bits_platform)
           (world_with "old.fits" (Ref.Image Fits.FLOAT_IMG [1; 1] "abcd"))
           "old.fits" "wxyz" "abcd" 1 1 1 1).
  - vm_compute. reflexivity.
  - vm_compute. reflexivity.
  - lia.
  - lia.
  - reflexivity.
  - vm_compute. reflexivity.
  - reflexivity.
  - lia.
  - reflexivity.
  - vm_compute. reflexivity.
Defined.

(** ** The case of a structural keyword *)

(** C4 fails on the code for a structural keyword in another case of
    letters.  The name check is [strcmp] against the list as spelled, so an
    entry for [naxis1] is not skipped: against any library both loops hand
    its value to [fits_update_key] under that keyword.  CFITSIO folds a
    keyword to upper case before it looks for the card: on the reference
    library that does so, after [write_fits_file] with the header
    [naxis1 => 999] the file says its first axis is 999 long, not the
    declared 2, and [write_header_cards] does the same to a file that is
    there; with the key spelled [NAXIS1] the declared width stays. *)
Theorem structural_key_in_lower_case_is_written :
  (forall (P : Platform) (name : string) (z : Z) (f : fptr) W (h : handler W) (w : W),
     existsb (String.eqb (Folding.upcase name)) skip_keys = true ->
     is_skip_key (C.c_str name) = false ->
     (String.length name + 1 <= Fits.FLEN_KEYWORD)%nat ->
     C.in_long z = true ->
     map attempt (updates (trace (exec h (cards_turn f 0 (TAtom name, TInt z)) w)))
     = [(Fits.TLONG, C.c_str name, KLong z)]
     /\ map attempt (updates (trace (exec h (file_turn f (TAtom name, TInt z)) w)))
        = [(Fits.TLONG, C.c_str name, KLong z)])
  /\ (let declared := Ref.Image Fits.FLOAT_IMG [2; 1] "abcdefgh" in
      let overridden := Ref.Image Fits.FLOAT_IMG [999; 1] "abcdefgh" in
      let file key :=
        exec Folding.folding_call
          (write_fits_file (P := bits_platform)
             [TBinary "m31.fits"; TBinary "abcdefgh"; TInt 2; TInt 1;
              TInt Fits.FLOAT_IMG; TMap [(TAtom key, TInt 999)]])
          empty_world in
      let cards key :=
        exec Folding.folding_call
          (write_header_cards (P := bits_platform)
             [TBinary "m31.fits"; TMap [(TAtom key, TInt 999)]])
          (world_with "m31.fits" declared) in
      result (file "naxis1") = Return atom_ok
      /\ Ref.disk (final (file "naxis1")) !! "m31.fits" = Some (Some overridden)
      /\ result (cards "naxis1") = Return atom_ok
      /\ Ref.disk (final (cards "naxis1")) !! "m31.fits" = Some (Some overridden)
      /\ Ref.disk (final (file "NAXIS1")) !! "m31.fits" = Some (Some declared)
      /\ Ref.disk (final (cards "NAXIS1")) !! "m31.fits" = Some (Some declared)).
Proof.
  split.
  - intros P name z f W h w _ Hskip Hlen Hz.
    unfold cards_turn, file_turn, enif_get_atom.
    destruct (Nat.leb_spec (String.length name + 1) Fits.FLEN_KEYWORD); [|lia].
    rewrite Hskip.
    unfold cards_update, file_update, log_update_failure. simpl. rewrite Hz.
    split; run h; reflexivity.
  - vm_compute. repeat split; reflexivity.
Qed.

Lemma naxis1_in_lower_case_is_written :
  map attempt
    (updates (trace (exec (update_answers (fun _ => 0))
                       (cards_turn (P := bits_platform) O 0 (TAtom "naxis1", TInt 999)) tt)))
  = [(Fits.TLONG, "naxis1", KLong 999)]
  /\ map attempt
       (updates (trace (exec (update_answers (fun _ => 0))
                          (file_turn (P := bits_platform) O (TAtom "naxis1", TInt 999)) tt)))
     = [(Fits.TLONG, "naxis1", KLong 999)].
Proof.
  apply (proj1 structural_key_in_lower_case_is_written bits_platform "naxis1" 999 O
           unit (update_answers (fun _ => 0)) tt).
  - reflexivity.
  - reflexivity.
  - vm_compute. lia.
  - reflexivity.
Defined.
